(** * AIHedgeFund: database bootstrap script, dashboard and login pages
      and the ingestion pipeline contracts

    The development follows the repository:
    - [InitDb]    : [scripts/init_db.sql], statement by statement, over a
                    small model of a PostgreSQL catalog and of the [plans]
                    table;
    - [Dashboard] : [apps/web/src/app/dashboard/page.tsx], the component
                    state, its three asynchronous handlers and its render
                    function;
    - [Login]     : [apps/web/src/app/login/page.tsx], the form state and
                    its submit handler;
    - [Pipeline]  : the fetch / normalize / commit contracts of the
                    ingestion pipeline. *)

From stdpp Require Import base tactics option list gmap strings pretty.
From Stdlib Require Import ZArith Lia Ascii.

Local Open Scope string_scope.
Set Warnings "-register-all".

(** ** Results of fallible steps *)

Inductive result (E A : Type) : Type :=
| Ok (a : A)
| Err (e : E).
Arguments Ok {E A} a.
Arguments Err {E A} e.

Definition rbind {E A B} (r : result E A) (k : A → result E B) : result E B :=
  match r with
  | Ok a => k a
  | Err e => Err e
  end.

(** ** scripts/init_db.sql *)

Module InitDb.

(** SQLSTATE conditions the statements of the script can raise. *)
Inductive sql_error : Type :=
| duplicate_object            (* 42710: CREATE TYPE on an existing name *)
| undefined_table             (* 42P01: INSERT INTO a missing relation *)
| undefined_function          (* 42883: uuid_generate_v4 without uuid-ossp *)
| invalid_column_reference    (* 42P10: ON CONFLICT without a matching unique index *)
| unique_violation.           (* 23505: a unique index other than the arbiter *)

#[global] Instance sql_error_eq_dec : EqDecision sql_error.
Proof. solve_decision. Defined.

Definition uuid : Type := N.

(** One row of [plans], with the columns the INSERT of the script lists. *)
Record plan_row : Type := mk_plan {
  id : uuid;
  name : string;
  display_name : string;
  description : string;
  price_monthly : Z;
  requests_per_day : Z;
  rows_per_response : Z;
  is_active : bool
}.

(** The [plans] relation is created by the migrations, not by this script,
    and its definition is not part of the repository's script: the table
    model records its rows and which of the two unique indexes it carries,
    and no other constraint (NOT NULL, CHECK, trigger) it may have. *)
Record plans_table : Type := mk_table {
  rows : list plan_row;
  name_unique : bool;   (* a unique index on (name), the ON CONFLICT arbiter *)
  id_unique : bool      (* a unique index on (id) *)
}.

Record database : Type := mk_db {
  extensions : list string;
  types : list (string * list string);   (* enum types: name, labels in order *)
  plans : option plans_table             (* None: the relation does not exist *)
}.

(** Catalog lookup by type name. *)
Fixpoint lookup_type (ty : string) (cat : list (string * list string)) : option (list string) :=
  match cat with
  | [] => None
  | d :: cat' => if bool_decide (d.1 = ty) then Some d.2 else lookup_type ty cat'
  end.

Definition type_labels (db : database) (ty : string) : option (list string) :=
  lookup_type ty (types db).

(** A value can be stored in a column of enum type [ty] when it is one of
    the labels of [ty]. *)
Definition enum_accepts (db : database) (ty v : string) : bool :=
  match type_labels db ty with
  | Some ls => bool_decide (v ∈ ls)
  | None => false
  end.

Definition statement : Type := database → result sql_error database.

(** [CREATE EXTENSION IF NOT EXISTS e] *)
Definition create_extension_if_not_exists (e : string) : statement := λ db,
  if bool_decide (e ∈ extensions db) then Ok db
  else Ok (mk_db (extensions db ++ [e]) (types db) (plans db)).

(** [CREATE TYPE ty AS ENUM (labels)] *)
Definition create_type_enum (ty : string) (labels : list string) : statement := λ db,
  if bool_decide (ty ∈ (types db).*1) then Err duplicate_object
  else Ok (mk_db (extensions db) (types db ++ [(ty, labels)]) (plans db)).

(** [DO $$ BEGIN body EXCEPTION WHEN duplicate_object THEN null; END $$]:
    the body runs in a sub-transaction; on [duplicate_object] its effects
    are rolled back and the handler does nothing; any other condition
    propagates. *)
Definition do_ignoring_duplicate_object (body : statement) : statement := λ db,
  match body db with
  | Ok db' => Ok db'
  | Err duplicate_object => Ok db
  | Err e => Err e
  end.

(** The VALUES list of the seed INSERT; [rng k] is the value of the k-th
    call of [uuid_generate_v4()]. *)
Definition seed_values (rng : nat → uuid) : list plan_row :=
  [ mk_plan (rng 0%nat) "free" "Free" "Basic access to SEC data API" 0 100 100 true;
    mk_plan (rng 1%nat) "pro" "Pro" "Full API access with higher limits" 99 10000 1000 true;
    mk_plan (rng 2%nat) "enterprise" "Enterprise" "Unlimited access with SLA" 999 1000000 100000 true ].

(** Row by row: a proposed row whose [name] is already present (in the table
    or among the rows inserted before it by the same statement) is skipped;
    otherwise the other unique index is checked and the row is appended. *)
Fixpoint insert_on_conflict_name_do_nothing
    (vals : list plan_row) (t : plans_table) : result sql_error plans_table :=
  match vals with
  | [] => Ok t
  | v :: vs =>
      if bool_decide (name v ∈ name <$> rows t) then
        insert_on_conflict_name_do_nothing vs t
      else if id_unique t && bool_decide (id v ∈ id <$> rows t) then
        Err unique_violation
      else
        insert_on_conflict_name_do_nothing vs
          (mk_table (rows t ++ [v]) (name_unique t) (id_unique t))
  end.

(** [INSERT INTO plans (...) VALUES ... ON CONFLICT (name) DO NOTHING].
    The conditions are raised in the order the server meets them: the
    relation is looked up first, then the function of the VALUES list, then
    the arbiter index. [uuid_generate_v4()] is taken to resolve whenever
    [uuid-ossp] is installed, that is, with the schema of the extension on
    the search path. *)
Definition seed_default_plans (rng : nat → uuid) : statement := λ db,
  match plans db with
  | None => Err undefined_table
  | Some t =>
      if negb (bool_decide ("uuid-ossp" ∈ extensions db)) then Err undefined_function
      else if negb (name_unique t) then Err invalid_column_reference
      else
        rbind (insert_on_conflict_name_do_nothing (seed_values rng) t)
              (λ t', Ok (mk_db (extensions db) (types db) (Some t')))
  end.

Definition create_enum (ty : string) (labels : list string) : statement :=
  do_ignoring_duplicate_object (create_type_enum ty labels).

(** What an enum-creation block leaves behind: the type is there, under the
    labels it had if it existed before. *)
Definition with_type (ty : string) (labels : list string) (db : database) : database :=
  if bool_decide (ty ∈ (types db).*1) then db
  else mk_db (extensions db) (types db ++ [(ty, labels)]) (plans db).

Definition with_extension (e : string) (db : database) : database :=
  if bool_decide (e ∈ extensions db) then db
  else mk_db (extensions db ++ [e]) (types db) (plans db).

(** The script, in file order. *)
Definition init_db_sql (rng : nat → uuid) : list statement :=
  [ create_extension_if_not_exists "uuid-ossp";
    create_extension_if_not_exists "pg_trgm";
    create_enum "processing_status_enum" ["pending"; "processing"; "completed"; "failed"];
    create_enum "statement_type_enum" ["income"; "balance"; "cashflow"; "equity"];
    create_enum "put_call_enum" ["put"; "call"; "both"; "none"];
    create_enum "user_role_enum" ["user"; "admin"; "internal"];
    create_enum "subscription_status_enum" ["active"; "canceled"; "past_due"; "paused"];
    create_enum "account_type_enum" ["paper"; "live"];
    create_enum "order_side_enum" ["buy"; "sell"];
    create_enum "order_type_enum" ["market"; "limit"; "stop"; "stop_limit"];
    create_enum "order_status_enum"
      ["pending"; "submitted"; "filled"; "partially_filled"; "canceled"; "rejected"];
    seed_default_plans rng ].

(** Running a script: every statement is its own transaction; a statement
    that raises leaves the database as it was and the run goes on with the
    next one, the raised conditions being reported in order. *)
Fixpoint run_script (ss : list statement) (db : database) : database * list sql_error :=
  match ss with
  | [] => (db, [])
  | s :: ss' =>
      match s db with
      | Ok db' => run_script ss' db'
      | Err e => let r := run_script ss' db in (r.1, e :: r.2)
      end
  end.

Definition init_db (rng : nat → uuid) (db : database) : database * list sql_error :=
  run_script (init_db_sql rng) db.

(** Catalog invariants of a database: type names are unique, and a unique
    index holds of the rows it covers. *)
Record wf_database (db : database) : Prop := mk_wf {
  wf_types : NoDup (types db).*1;
  wf_plan_names : ∀ t, plans db = Some t → name_unique t = true → NoDup (name <$> rows t);
  wf_plan_ids : ∀ t, plans db = Some t → id_unique t = true → NoDup (id <$> rows t)
}.

(** A database just created, after the migrations have made an empty
    [plans] relation. *)
Definition empty_plans : plans_table := mk_table [] true true.
Definition fresh_database : database := mk_db [] [] (Some empty_plans).

(** The enum types the script declares, in file order. *)
Definition script_enums : list (string * list string) :=
    [("processing_status_enum", ["pending"; "processing"; "completed"; "failed"]);
     ("statement_type_enum", ["income"; "balance"; "cashflow"; "equity"]);
     ("put_call_enum", ["put"; "call"; "both"; "none"]);
     ("user_role_enum", ["user"; "admin"; "internal"]);
     ("subscription_status_enum", ["active"; "canceled"; "past_due"; "paused"]);
     ("account_type_enum", ["paper"; "live"]);
     ("order_side_enum", ["buy"; "sell"]);
     ("order_type_enum", ["market"; "limit"; "stop"; "stop_limit"]);
     ("order_status_enum",
      ["pending"; "submitted"; "filled"; "partially_filled"; "canceled"; "rejected"])].

(** A source of identifiers for the examples: the k-th call yields k. *)
Definition seq_uuid : nat → uuid := N.of_nat.

(** The states of the filing-processing state machine, as the specification
    names them. *)
Definition filing_status_states_spec : list string :=
  ["pending"; "fetching"; "parsing"; "persisting"; "completed"; "failed"; "dead-lettered"].


(** Databases for the examples: one in which the migrations have not run
    yet, and one that already holds a type of the script under other labels
    and a plan of the script under other figures. *)
Definition database_without_plans : database := mk_db [] [] None.

Definition legacy_pro_plan : plan_row :=
  mk_plan 77%N "pro" "Pro (2023)" "Legacy pricing" 49 5000 500 true.

Definition customized_database : database :=
  mk_db ["pg_trgm"]
        [("processing_status_enum", ["pending"; "fetching"; "done"])]
        (Some (mk_table [legacy_pro_plan] true true)).

End InitDb.

(** ** apps/web/src/app/dashboard/page.tsx *)

Module Dashboard.

(** JavaScript values, as far as the page handles them: what [res.json()]
    yields and what the component keeps in its state. *)
Inductive value : Type :=
| VUndefined
| VNull
| VBool (b : bool)
| VNum (n : Z)
| VStr (s : string)
| VArr (items : list value)
| VObj (fields : list (string * value)).

Inductive exn : Type :=
| Error (message : string)     (* [throw new Error(message)] *)
| TypeError                    (* property read on null/undefined, rejected fetch *)
| SyntaxError.                 (* [res.json()] on a body that is not JSON *)

Fixpoint lookup_field (p : string) (fields : list (string * value)) : value :=
  match fields with
  | [] => VUndefined
  | f :: fields' => if bool_decide (f.1 = p) then f.2 else lookup_field p fields'
  end.

(** [v.p] for the property names the page reads ([data], [key], [id],
    [key_prefix], [created_at], [email], [full_name]): none of them is a
    built-in property of a primitive or of an array. *)
Definition get_prop (v : value) (p : string) : result exn value :=
  match v with
  | VUndefined | VNull => Err TypeError
  | VObj fields => Ok (lookup_field p fields)
  | _ => Ok VUndefined
  end.

(** [v?.p] *)
Definition get_prop_opt (v : value) (p : string) : value :=
  match get_prop v p with
  | Ok x => x
  | Err _ => VUndefined
  end.

(** JavaScript truthiness. *)
Definition truthy (v : value) : bool :=
  match v with
  | VUndefined | VNull => false
  | VBool b => b
  | VNum n => negb (Z.eqb n 0)
  | VStr s => negb (bool_decide (s = ""))
  | VArr _ | VObj _ => true
  end.

(** [a || b] *)
Definition js_or (a b : value) : value := if truthy a then a else b.

Inductive method : Type := GET | POST | DELETE.

(** A call of [fetch]: the path after [process.env.NEXT_PUBLIC_API_URL], the
    value spliced after it (the key id of a revocation), the bearer token
    of the Authorization header ([None] is the JavaScript [null], which the
    template renders as the text null) and the JSON body. *)
Record request : Type := mk_request {
  meth : method;
  path : string;
  path_arg : option value;
  bearer : option string;
  body : option value
}.

(** What the network answers to one request. *)
Inductive reply : Type :=
| Rejected                                      (* the fetch promise rejects *)
| Response (ok : bool) (json : option value).   (* [json = None]: [res.json()] rejects *)

(** The component state: one field per [useState]. *)
Record component : Type := mk_component {
  user : value;
  apiKeys : value;
  loading : bool;
  showKeyModal : bool;
  newKey : value
}.

Definition initial_component : component :=
  mk_component VNull (VArr []) true false (VStr "").

(** Everything a handler can read or change. [network k] is the answer to
    the k-th request of the session. [location] is the address the page was
    opened at or, after a [router.push], the address the router was last
    told to go to: the push only starts the navigation, and the component
    goes on rendering its state until the navigation has taken place. *)
Record world : Type := mk_world {
  st : component;
  localStorage : gmap string string;
  location : string;
  sent : list request;
  network : nat → reply;
  console : list exn;
  clipboard : option value
}.

Definition M (A : Type) : Type := world → result exn A * world.

Definition ret {A} (a : A) : M A := λ w, (Ok a, w).
Definition throw {A} (e : exn) : M A := λ w, (Err e, w).
Definition bind {A B} (m : M A) (k : A → M B) : M B := λ w,
  match m w with
  | (Ok a, w') => k a w'
  | (Err e, w') => (Err e, w')
  end.

Notation "'let!' x ':=' m 'in' k" := (bind m (λ x, k))
  (at level 10, x name, m at level 100, k at level 200).
Notation "m ';;' k" := (bind m (λ _, k))
  (at level 100, k at level 200, right associativity).

(** [try { body } catch (e) { handler e }] *)
Definition try_catch {A} (body : M A) (handler : exn → M A) : M A := λ w,
  match body w with
  | (Ok a, w') => (Ok a, w')
  | (Err e, w') => handler e w'
  end.

(** [try { body } finally { cleanup }] *)
Definition try_finally {A} (body : M A) (cleanup : M unit) : M A := λ w,
  match body w with
  | (r, w') =>
      match cleanup w' with
      | (Ok _, w'') => (r, w'')
      | (Err e, w'') => (Err e, w'')
      end
  end.

(** A call of an async function that is not awaited: the caller goes on
    whatever becomes of the promise. *)
Definition not_awaited (m : M unit) : M unit := λ w, (Ok tt, (m w).2).

Definition update (f : component → component) : M unit := λ w,
  (Ok tt, mk_world (f (st w)) (localStorage w) (location w) (sent w) (network w)
                   (console w) (clipboard w)).

Definition setUser (v : value) : M unit :=
  update (λ c, mk_component v (apiKeys c) (loading c) (showKeyModal c) (newKey c)).
Definition setApiKeys (v : value) : M unit :=
  update (λ c, mk_component (user c) v (loading c) (showKeyModal c) (newKey c)).
Definition setLoading (b : bool) : M unit :=
  update (λ c, mk_component (user c) (apiKeys c) b (showKeyModal c) (newKey c)).
Definition setShowKeyModal (b : bool) : M unit :=
  update (λ c, mk_component (user c) (apiKeys c) (loading c) b (newKey c)).
Definition setNewKey (v : value) : M unit :=
  update (λ c, mk_component (user c) (apiKeys c) (loading c) (showKeyModal c) v).

Definition localStorage_getItem (k : string) : M (option string) := λ w,
  (Ok (localStorage w !! k), w).

Definition localStorage_removeItem (k : string) : M unit := λ w,
  (Ok tt, mk_world (st w) (delete k (localStorage w)) (location w) (sent w) (network w)
                   (console w) (clipboard w)).

Definition router_push (href : string) : M unit := λ w,
  (Ok tt, mk_world (st w) (localStorage w) href (sent w) (network w)
                   (console w) (clipboard w)).

Definition console_error (e : exn) : M unit := λ w,
  (Ok tt, mk_world (st w) (localStorage w) (location w) (sent w) (network w)
                   (console w ++ [e]) (clipboard w)).

Definition clipboard_writeText (v : value) : M unit := λ w,
  (Ok tt, mk_world (st w) (localStorage w) (location w) (sent w) (network w)
                   (console w) (Some v)).

(** [await fetch(...)]: the request is sent, then the promise settles. *)
Definition fetch (rq : request) : M reply := λ w,
  let w' := mk_world (st w) (localStorage w) (location w) (sent w ++ [rq]) (network w)
                     (console w) (clipboard w) in
  match network w (length (sent w)) with
  | Rejected => (Err TypeError, w')
  | r => (Ok r, w')
  end.

Definition res_ok (r : reply) : bool :=
  match r with
  | Response ok _ => ok
  | Rejected => false
  end.

(** [await res.json()] *)
Definition res_json (r : reply) : M value :=
  match r with
  | Response _ (Some v) => ret v
  | _ => throw SyntaxError
  end.

Definition lift {A} (r : result exn A) : M A := λ w, (r, w).

(** [!token] for [token : string | null] *)
Definition no_token (token : option string) : bool :=
  match token with
  | None => true
  | Some s => bool_decide (s = "")
  end.

Definition fetchUserData : M unit :=
  let! token := localStorage_getItem "access_token" in
  if no_token token then
    router_push "/login"
  else
    try_finally
      (try_catch
         ((* Get user info *)
          let! userRes := fetch (mk_request GET "/v1/auth/me" None token None) in
          (if negb (res_ok userRes) then throw (Error "Failed to fetch user") else ret tt);;
          let! userData := res_json userRes in
          let! d := lift (get_prop userData "data") in
          setUser d;;
          (* Get API keys *)
          let! keysRes := fetch (mk_request GET "/v1/auth/api-keys" None token None) in
          (if negb (res_ok keysRes) then throw (Error "Failed to fetch keys") else ret tt);;
          let! keysData := res_json keysRes in
          let! d := lift (get_prop keysData "data") in
          setApiKeys d)
         (λ error, console_error error;; router_push "/login"))
      (setLoading false).

Definition createApiKey : M unit :=
  let! token := localStorage_getItem "access_token" in
  try_catch
    (let! res := fetch (mk_request POST "/v1/auth/api-keys" None token
                          (Some (VObj [("name", VStr "My API Key")]))) in
     (if negb (res_ok res) then throw (Error "Failed to create key") else ret tt);;
     let! data := res_json res in
     let! d := lift (get_prop data "data") in
     let! k := lift (get_prop d "key") in
     setNewKey k;;
     setShowKeyModal true;;
     (* Refresh keys *)
     not_awaited fetchUserData)
    (λ error, console_error error).

Definition revokeKey (keyId : value) : M unit :=
  let! token := localStorage_getItem "access_token" in
  try_catch
    (let! _ := fetch (mk_request DELETE "/v1/auth/api-keys/" (Some keyId) token None) in
     (* Refresh keys *)
     not_awaited fetchUserData)
    (λ error, console_error error).

(** The [onClick] of the button of the modal. *)
Definition copyAndClose : M unit :=
  let! k := (λ w, (Ok (newKey (st w)), w)) in
  clipboard_writeText k;;
  setShowKeyModal false.

(** The [onClick] of Sign Out. *)
Definition signOut : M unit :=
  localStorage_removeItem "access_token";;
  router_push "/".

(** What the component returns: the interpolated values of the JSX, by
    place. *)
Record key_row : Type := mk_row {
  react_key : value;        (* key={key.id} *)
  prefix_text : value;      (* {key.key_prefix} *)
  created_date : value      (* the argument of [new Date(...)] *)
}.

Inductive key_list : Type :=
| NoKeysYet
| KeyRows (rs : list key_row).

Inductive view : Type :=
| LoadingView
| DashboardView (email full_name : value) (keys : key_list) (modal : option value).

Definition render_row (key : value) : result exn key_row :=
  rbind (get_prop key "id") (λ i,
  rbind (get_prop key "key_prefix") (λ p,
  rbind (get_prop key "created_at") (λ c,
  Ok (mk_row i p c)))).

Fixpoint render_rows (keys : list value) : result exn (list key_row) :=
  match keys with
  | [] => Ok []
  | k :: keys' =>
      rbind (render_row k) (λ r,
      rbind (render_rows keys') (λ rs, Ok (r :: rs)))
  end.

(** [apiKeys.length === 0 ? ... : apiKeys.map(...)] *)
Definition render_keys (keys : value) : result exn key_list :=
  match keys with
  | VUndefined | VNull => Err TypeError           (* .length of null/undefined *)
  | VArr [] => Ok NoKeysYet
  | VArr items => rbind (render_rows items) (λ rs, Ok (KeyRows rs))
  | VStr s => if bool_decide (s = "") then Ok NoKeysYet else Err TypeError
  | VObj fields =>
      match lookup_field "length" fields with
      | VNum 0 => Ok NoKeysYet
      | _ => Err TypeError                        (* .map is not a function *)
      end
  | VBool _ | VNum _ => Err TypeError             (* .map is not a function *)
  end.

Definition render (c : component) : result exn view :=
  if loading c then Ok LoadingView
  else
    rbind (render_keys (apiKeys c)) (λ ks,
    Ok (DashboardView (get_prop_opt (user c) "email")
                      (js_or (get_prop_opt (user c) "full_name") (VStr "Not set"))
                      ks
                      (if showKeyModal c then Some (newKey c) else None))).

(** What the user can do on the page, and the mounting of the component
    (the [useEffect] with no dependencies). *)
Inductive event : Type :=
| Mount
| ClickCreateNewKey
| ClickRevoke (keyId : value)
| ClickCopyAndClose
| ClickSignOut.

Definition mount : M unit :=
  update (λ _, initial_component);;
  (λ w, (Ok tt, mk_world (st w) (localStorage w) "/dashboard" (sent w) (network w)
                         (console w) (clipboard w)));;
  not_awaited fetchUserData.

Definition handler (e : event) : M unit :=
  match e with
  | Mount => mount
  | ClickCreateNewKey => createApiKey
  | ClickRevoke keyId => revokeKey keyId
  | ClickCopyAndClose => copyAndClose
  | ClickSignOut => signOut
  end.

(** What a request of [fetchUserData] has to come back with for the try
    block to go on: an ok response whose body is JSON with a readable
    [data]. *)
Definition succeeds (r : reply) : option value :=
  match r with
  | Response true (Some payload) =>
      match get_prop payload "data" with
      | Ok d => Some d
      | Err _ => None
      end
  | _ => None
  end.

(** The key a creation request hands back when [createApiKey] gets as far
    as [setNewKey(data.data.key)]. *)
Definition created_key (r : reply) : option value :=
  match succeeds r with
  | Some d =>
      match get_prop d "key" with
      | Ok k => Some k
      | Err _ => None
      end
  | None => None
  end.

(** Handlers run one after the other, each to its end. *)
Definition step (w : world) (e : event) : world := (handler e w).2.

Definition run (es : list event) (w : world) : world := foldl step w es.

(** The row the list shows for a key object whose three properties can be
    read. *)
Definition row_of (key : value) : key_row :=
  mk_row (get_prop_opt key "id") (get_prop_opt key "key_prefix")
         (get_prop_opt key "created_at").

(** A session for the examples: the API answers the user, a list of one
    key (sent with its full value), a created key, then the user and the
    list again. *)
Definition example_key : value :=
  VObj [("id", VStr "k1"); ("key_prefix", VStr "aihf_live_ab");
        ("created_at", VStr "2024-01-01"); ("key", VStr "aihf_live_ab0123")].

Definition example_network (k : nat) : reply :=
  match k with
  | 0%nat | 3%nat => Response true (Some (VObj [("data", VObj [("email", VStr "a@b.c")])]))
  | 1%nat | 4%nat => Response true (Some (VObj [("data", VArr [example_key])]))
  | 2%nat => Response true (Some (VObj [("data", VObj [("key", VStr "aihf_live_cd4567")])]))
  | _ => Rejected
  end.

Definition example_world (token : option string) (net : nat → reply) : world :=
  mk_world initial_component
           (match token with Some t => {["access_token" := t]} | None => ∅ end)
           "/dashboard" [] net [] None.

(** What the modal has on display, if it is open. *)
Definition modal_of (w : world) : option value :=
  if showKeyModal (st w) then Some (newKey (st w)) else None.

(** Along a run: how many times the modal opens, how many keys are
    created, and the key created last. *)
Fixpoint modal_openings (es : list event) (w : world) : nat :=
  match es with
  | [] => 0
  | e :: es' =>
      (if negb (showKeyModal (st w)) && showKeyModal (st (step w e)) then 1 else 0)
      + modal_openings es' (step w e)
  end.

Definition key_created_by (e : event) (w : world) : option value :=
  match e with
  | ClickCreateNewKey => created_key (network w (length (sent w)))
  | _ => None
  end.

Fixpoint keys_created (es : list event) (w : world) : nat :=
  match es with
  | [] => 0
  | e :: es' =>
      (match key_created_by e w with Some _ => 1 | None => 0 end)
      + keys_created es' (step w e)
  end.

Fixpoint last_created (es : list event) (w : world) (last : option value) : option value :=
  match es with
  | [] => last
  | e :: es' =>
      last_created es' (step w e)
        (match key_created_by e w with
         | Some k => Some k
         | None => last
         end)
  end.


(** Networks for the examples: one whose key-list answer carries no
    [data], one that refuses the third request of the session (not ok) and
    answers the others, one that answers the user request and refuses the
    key-list request. *)
Definition network_without_key_data (k : nat) : reply :=
  match k with
  | 0%nat => Response true (Some (VObj [("data", VObj [("email", VStr "a@b.c")])]))
  | _ => Response true (Some (VObj []))
  end.

Definition network_refusing_third (k : nat) : reply :=
  match k with
  | 2%nat => Response false None
  | _ => example_network k
  end.

Definition network_refusing_key_list (k : nat) : reply :=
  match k with
  | 0%nat => Response true (Some (VObj [("data", VObj [("email", VStr "a@b.c")])]))
  | _ => Response false None
  end.

End Dashboard.

(** ** The ingestion pipeline: Fetcher, Normalizer, Persistence Layer *)

(** The sources hold only the design of the pipeline (ARCHITECTURE.md,
    Ingestion Pipeline): retry with exponential backoff, normalization to
    the internal schema, idempotent upsert. Fetcher, parsers, Normalizer and
    Persistence Layer are modelled here from their contracts in the
    specification. *)

Module Pipeline.

Local Open Scope Z_scope.

(** *** Fetcher *)

Definition bytes : Type := list Byte.byte.

(** Modelled from the spec: the Fetcher's configuration is not in the
    sources; it has an attempt cap (default 5) and the base of the
    exponential backoff. *)
Record fetch_config : Type := mk_fetch_config {
  max_attempts : nat;
  base_delay : Z
}.

(** Modelled from the spec: the default cap of the Fetcher, N = 5. *)
Definition default_max_attempts : nat := 5.

(** Modelled from the spec: what one HTTP-equivalent attempt comes back
    with, either the raw bytes with their content metadata or a failure
    status. *)
Inductive attempt_result : Type :=
| Fetched (raw : bytes) (content_type : string)
| Failed (status : Z).

(** Modelled from the spec: the 429/5xx class of statuses. *)
Definition retryable (status : Z) : bool :=
  (status =? 429) || ((500 <=? status) && (status <=? 599)).

(** Modelled from the spec: the error of the Fetcher,
    [FetchFailed{locator, lastStatus, attempts}]. *)
Inductive fetch_error : Type :=
| FetchFailed (locator : string) (lastStatus : Z) (attempts : nat).

(** Modelled from the spec: what is observed of one [fetch] call of the
    absent Fetcher: its outcome, the number of attempts made and the
    delays slept between them. *)
Record fetch_run : Type := mk_fetch_run {
  outcome : result fetch_error (bytes * string);
  attempts_made : nat;
  waits : list Z
}.

Section Fetcher.
Variable cfg : fetch_config.
(** [source locator k]: the answer of the source to the k-th attempt. *)
Variable source : string → nat → attempt_result.
(** [jitter k]: the random part of the k-th delay. *)
Variable jitter : nat → Z.

(** Modelled from the spec: the delay of the absent Fetcher before the
    retry that follows the k-th attempt, exponential backoff with jitter. *)
Definition backoff (k : nat) : Z := base_delay cfg * 2 ^ Z.of_nat k + jitter k.

(** Modelled from the spec: the retry loop of [fetch] is not in the
    sources. Attempt [k] is made; a 429/5xx-class failure is retried after
    the backoff delay while retries are left; the failure of the last
    attempt surfaces [FetchFailed] with the locator, that status and the
    number of attempts. The spec does not say what a failure outside the
    429/5xx class does: here it is not retried. *)
Fixpoint attempt_from (locator : string) (retries_left k : nat) (slept : list Z) : fetch_run :=
  match source locator k with
  | Fetched raw ct => mk_fetch_run (Ok (raw, ct)) (S k) slept
  | Failed status =>
      match retries_left with
      | S r =>
          if retryable status
          then attempt_from locator r (S k) (slept ++ [backoff k])
          else mk_fetch_run (Err (FetchFailed locator status (S k))) (S k) slept
      | O => mk_fetch_run (Err (FetchFailed locator status (S k))) (S k) slept
      end
  end.

(** Modelled from the spec: [fetch(locator)] of the absent Fetcher, the
    loop started with the cap of the configuration (the shared rate
    limiter is not part of this model). *)
Definition fetch (locator : string) : fetch_run :=
  attempt_from locator (max_attempts cfg - 1) 0 [].
End Fetcher.

(** *** Data model *)

(** Modelled from the spec: the form types of the data model. *)
Inductive form_type : Type :=
| annual_report | quarterly_report | current_report | holdings_report | other_form.

(** A calendar date. *)
Record date : Type := mk_date { year : Z; month : Z; day : Z }.

(** Modelled from the spec: the Filing entity of the data model, without
    its raw-document locations and processing status, which [normalize]
    and [commit] do not read. *)
Record filing : Type := mk_filing {
  accession : string;
  entity : string;
  form : form_type;
  filing_date : date;
  period_end : date
}.

(** Modelled from the spec: the statement categories of the data model. *)
Inductive category : Type :=
| income | balance | cashflow | equity | holdings_line.

#[global] Instance category_eq_dec : EqDecision category.
Proof. solve_decision. Defined.

(** Modelled from the spec: a fiscal period, a year and a quarter that is
    absent for annual figures. *)
Record fiscal_period : Type := mk_period { fiscal_year : Z; quarter : option Z }.

#[global] Instance fiscal_period_eq_dec : EqDecision fiscal_period.
Proof. solve_decision. Defined.

(** Modelled from the spec: the document-level scale declarations the
    specification names. *)
Inductive scale : Type := raw_units | thousands.

(** Modelled from the spec: the IntermediateFact a parser hands over: the
    raw tag, the declared value already read as a number, the scale
    declared by the document, and where the fact was found. *)
Record intermediate_fact : Type := mk_intermediate {
  raw_tag : string;
  raw_value : Z;
  declared_scale : scale;
  unit_ : string;
  currency : string;
  offset : nat
}.

(** Modelled from the spec: the classification of a line item by the
    absent Normalizer: a canonical category and key, or, for an unmapped
    item, its raw tag passed through under the uncategorized marker. *)
Inductive line_item : Type :=
| Mapped (c : category) (key : string)
| Uncategorized (tag : string).

#[global] Instance line_item_eq_dec : EqDecision line_item.
Proof. solve_decision. Defined.

(** Modelled from the spec: the NormalizedFact of the data model. *)
Record normalized_fact : Type := mk_fact {
  item : line_item;
  value : Z;
  fact_unit : string;
  fact_currency : string;
  period : fiscal_period;
  provenance : string * nat      (* raw tag and document offset *)
}.

(** *** Taxonomy-fact parser: the declared value *)

(** Decimal digits. *)
Definition digit_value (c : ascii) : option Z :=
  let n := Z.of_nat (nat_of_ascii c) in
  if (48 <=? n) && (n <=? 57) then Some (n - 48) else None.

Fixpoint parse_digits (s : string) (acc : Z) : option Z :=
  match s with
  | EmptyString => Some acc
  | String c s' =>
      match digit_value c with
      | Some d => parse_digits s' (10 * acc + d)
      | None => None
      end
  end.

(** Modelled from the spec: the error of a parser, [ParseError{reason,
    offset}]. *)
Inductive parse_error : Type :=
| ParseError (reason : string) (at_offset : nat).

(** Modelled from the spec: the taxonomy-fact parser is not in the sources;
    of it only the reading of one declared fact is modelled: a value
    written in decimal digits becomes a number, anything else is a
    [ParseError] at the fact's offset. *)
Definition parse_declared_fact (tag text : string) (sc : scale) (u cur : string) (off : nat)
    : result parse_error intermediate_fact :=
  match text with
  | EmptyString => Err (ParseError "empty value" off)
  | _ =>
      match parse_digits text 0 with
      | Some n => Ok (mk_intermediate tag n sc u cur off)
      | None => Err (ParseError "value is not a number" off)
      end
  end.

(** *** Normalizer *)

(** Modelled from the spec: value scaling, thousands against raw units. *)
Definition scale_factor (sc : scale) : Z :=
  match sc with
  | raw_units => 1
  | thousands => 1000
  end.

Section Normalizer.
(** The alias table is data: raw tags with the canonical category and key
    they stand for, in priority order. *)
Variable alias_table : list (string * (category * string)).
(** The fiscal quarter a period-end date falls in, for the forms that
    report a quarter. *)
Variable quarter_of : date → Z.

(** Modelled from the spec: alias resolution of the absent Normalizer; the
    first entry of the table for the tag wins. *)
Fixpoint resolve_alias (tag : string) (table : list (string * (category * string))) : line_item :=
  match table with
  | [] => Uncategorized tag
  | a :: table' =>
      if bool_decide (a.1 = tag) then Mapped a.2.1 a.2.2 else resolve_alias tag table'
  end.

(** Modelled from the spec: fiscal-period derivation from the period-end
    date and the form type; an annual report has no quarter. *)
Definition derive_period (f : filing) : fiscal_period :=
  match form f with
  | annual_report => mk_period (year (period_end f)) None
  | _ => mk_period (year (period_end f)) (Some (quarter_of (period_end f)))
  end.

(** Modelled from the spec: the Normalizer is not in the sources. One
    fact: the value is multiplied by the declared scale, the period is
    derived from the filing, the raw tag is resolved through the alias
    table, an unmapped tag passing through as uncategorized. *)
Definition normalize_fact (f : filing) (i : intermediate_fact) : normalized_fact :=
  mk_fact (resolve_alias (raw_tag i) alias_table)
          (raw_value i * scale_factor (declared_scale i))
          (unit_ i) (currency i)
          (derive_period f)
          (raw_tag i, offset i).

(** Modelled from the spec: [normalize(filing, facts)] of the absent
    Normalizer, fact by fact (holding records are not modelled). *)
Definition normalize (f : filing) (facts : list intermediate_fact) : list normalized_fact :=
  normalize_fact f <$> facts.
End Normalizer.

(** *** Persistence Layer *)

(** Modelled from the spec: a persisted fact row, the fact and the filing
    it belongs to. *)
Record fact_row : Type := mk_fact_row {
  filing_id : string;
  fact : normalized_fact
}.

(** Modelled from the spec: the uniqueness key of a row, (filing ID,
    statement category and line-item key, fiscal period). *)
Definition row_key (r : fact_row) : string * line_item * fiscal_period :=
  (filing_id r, item (fact r), period (fact r)).

(** Modelled from the spec: the upsert of the absent Persistence Layer;
    the row stored under the same key is overwritten in place, a row with
    a new key is added. *)
Fixpoint upsert (r : fact_row) (table : list fact_row) : list fact_row :=
  match table with
  | [] => [r]
  | r' :: table' =>
      if bool_decide (row_key r' = row_key r) then r :: table'
      else r' :: upsert r table'
  end.

(** Modelled from the spec: the facts of one filing, upserted in order. *)
Definition upsert_all (acc : string) (table : list fact_row)
    (facts : list normalized_fact) : list fact_row :=
  foldl (λ t x, upsert (mk_fact_row acc x) t) table facts.

(** Modelled from the spec: the error of the Persistence Layer. *)
Inductive persistence_error : Type := PersistenceFailed.

(** Modelled from the spec: [commit] is not in the sources. In one
    transaction the prior facts of the filing are removed and the new ones
    upserted; when the storage layer is unavailable nothing is changed and
    [PersistenceFailed] is returned. *)
Definition commit (available : bool) (table : list fact_row) (f : filing)
    (facts : list normalized_fact) : result persistence_error (list fact_row) :=
  if available then
    Ok (upsert_all (accession f) (filter (λ r, filing_id r ≠ accession f) table) facts)
  else Err PersistenceFailed.

(** The table after a commit, whether it went through or not. *)
Definition committed (available : bool) (table : list fact_row) (f : filing)
    (facts : list normalized_fact) : list fact_row :=
  match commit available table f facts with
  | Ok table' => table'
  | Err _ => table
  end.

(** Modelled from the spec: one run of the pipeline on the raw bytes of a
    filing, from the parser on: parse, normalize, commit. The parser is not
    in the sources and is a parameter here. A parse failure, like a failed
    commit, leaves the table as it was. *)
Definition process (parse : bytes → result parse_error (list intermediate_fact))
    (alias_table : list (string * (category * string))) (quarter_of : date → Z)
    (available : bool) (table : list fact_row) (f : filing) (raw : bytes) : list fact_row :=
  match parse raw with
  | Ok facts => committed available table f (normalize alias_table quarter_of f facts)
  | Err _ => table
  end.

(** The persisted states: the empty table and whatever commits make of
    it. *)
Inductive reachable : list fact_row → Prop :=
| reachable_empty : reachable []
| reachable_commit available table f facts :
    reachable table → reachable (committed available table f facts).

(** Data for the examples. *)
Definition example_fetch_config : fetch_config := mk_fetch_config default_max_attempts 100.

Definition example_alias_table : list (string * (category * string)) :=
  [("Revenues", (income, "revenue")); ("Revenue", (income, "revenue"));
   ("Assets", (balance, "total_assets"))].

Definition example_filing : filing :=
  mk_filing "0000320193-24-000006" "0000320193" annual_report
            (mk_date 2024 2 1) (mk_date 2023 12 31).

Definition example_fact (v : Z) : normalized_fact :=
  mk_fact (Mapped income "revenue") v "USD" "USD" (mk_period 2023 None) ("Revenue", 0%nat).

End Pipeline.

(** ** apps/web/src/app/login/page.tsx *)

Module Login.
Import Dashboard.

(** JavaScript [String(v)], as [localStorage.setItem] and [new Error(v)]
    apply it to a value that came out of JSON. The text of a number is the
    engine's: [number_text n] stands for what the engine prints for the
    double a JSON literal of value [n] is read as (the literal itself in
    decimal for a small integer, a rounded or an exponent form for a large
    one); it is left uninterpreted. *)
Fixpoint to_string (number_text : Z → string) (v : value) : string :=
  match v with
  | VUndefined => "undefined"
  | VNull => "null"
  | VBool b => if b then "true" else "false"
  | VNum n => number_text n
  | VStr s => s
  | VArr items =>
      (fix join (l : list value) : string :=
         match l with
         | [] => ""
         | x :: l' =>
             (match x with VUndefined | VNull => "" | _ => to_string number_text x end)
             ++ match l' with [] => "" | _ => "," ++ join l' end
         end) items
  | VObj _ => "[object Object]"
  end.

(** A thrown error object; the page reads its [message] only. *)
Inductive js_error : Type := Thrown (message : string).

Definition message (e : js_error) : string :=
  match e with Thrown m => m end.

(** The call of [fetch] of the page: a POST with a JSON body. *)
Record login_request : Type := mk_login_request {
  login_path : string;
  content_type : string;
  login_body : value
}.

(** The body of a response: JSON, or something [res.json()] rejects with
    the given message. *)
Inductive payload : Type :=
| Json (v : value)
| NotJson (parser_message : string).

Inductive login_reply : Type :=
| Unreachable (network_message : string)        (* the fetch promise rejects *)
| Answer (ok : bool) (content : payload).

(** The component state: one field per [useState]. *)
Record form : Type := mk_form {
  email : string;
  password : string;
  error : string;
  submitting : bool               (* the state variable [loading] *)
}.

Definition initial_form : form := mk_form "" "" "" false.

(** Everything the handler can read or change. [server k] is the answer to
    the k-th request; [null_read v p] is the message of the TypeError the
    engine raises for reading property [p] of [v], a null or undefined;
    [number_text] is the engine's printing of numbers. [url] is the address
    the router was last told to go to. *)
Record browser : Type := mk_browser {
  page : form;
  storage : gmap string string;
  url : string;
  requests : list login_request;
  server : nat → login_reply;
  null_read : value → string → string;
  number_text : Z → string
}.

Definition L (A : Type) : Type := browser → result js_error A * browser.

Definition pure {A} (a : A) : L A := λ b, (Ok a, b).
Definition raise {A} (e : js_error) : L A := λ b, (Err e, b).
Definition then_ {A B} (m : L A) (k : A → L B) : L B := λ b,
  match m b with
  | (Ok a, b') => k a b'
  | (Err e, b') => (Err e, b')
  end.

Notation "'let*' x ':=' m 'in' k" := (then_ m (λ x, k))
  (at level 10, x name, m at level 100, k at level 200).
Notation "m ';;;' k" := (then_ m (λ _, k))
  (at level 100, k at level 200, right associativity).

(** [try { body } catch (err) { handler err }] *)
Definition catching {A} (body : L A) (handler : js_error → L A) : L A := λ b,
  match body b with
  | (Ok a, b') => (Ok a, b')
  | (Err e, b') => handler e b'
  end.

(** [try { body } finally { cleanup }] *)
Definition finally {A} (body : L A) (cleanup : L unit) : L A := λ b,
  match body b with
  | (r, b') =>
      match cleanup b' with
      | (Ok _, b'') => (r, b'')
      | (Err e, b'') => (Err e, b'')
      end
  end.

Definition set_page (f : form → form) : L unit := λ b,
  (Ok tt, mk_browser (f (page b)) (storage b) (url b) (requests b) (server b) (null_read b)
                     (number_text b)).

Definition setEmail (s : string) : L unit :=
  set_page (λ f, mk_form s (password f) (error f) (submitting f)).
Definition setPassword (s : string) : L unit :=
  set_page (λ f, mk_form (email f) s (error f) (submitting f)).
Definition setError (s : string) : L unit :=
  set_page (λ f, mk_form (email f) (password f) s (submitting f)).
Definition setLoading (v : bool) : L unit :=
  set_page (λ f, mk_form (email f) (password f) (error f) v).

(** [localStorage.setItem(k, v)]: the value is stored as a string. *)
Definition localStorage_setItem (k : string) (v : value) : L unit := λ b,
  (Ok tt, mk_browser (page b) (<[k := to_string (number_text b) v]> (storage b)) (url b)
                     (requests b) (server b) (null_read b) (number_text b)).

Definition router_push (href : string) : L unit := λ b,
  (Ok tt, mk_browser (page b) (storage b) href (requests b) (server b) (null_read b)
                     (number_text b)).

(** [await fetch(...)] *)
Definition post (rq : login_request) : L login_reply := λ b,
  let b' := mk_browser (page b) (storage b) (url b) (requests b ++ [rq]) (server b)
                       (null_read b) (number_text b) in
  match server b (length (requests b)) with
  | Unreachable m => (Err (Thrown m), b')
  | r => (Ok r, b')
  end.

Definition response_ok (r : login_reply) : bool :=
  match r with
  | Answer ok _ => ok
  | Unreachable _ => false
  end.

(** [await response.json()] *)
Definition response_json (r : login_reply) : L value :=
  match r with
  | Answer _ (Json v) => pure v
  | Answer _ (NotJson m) => raise (Thrown m)
  | Unreachable m => raise (Thrown m)
  end.

(** [v.p] *)
Definition read (v : value) (p : string) : L value := λ b,
  match get_prop v p with
  | Ok x => (Ok x, b)
  | Err _ => (Err (Thrown (null_read b v p)), b)
  end.

(** [new Error(v)]: the message is [String(v)]. *)
Definition new_Error (v : value) : L js_error := λ b,
  (Ok (Thrown (to_string (number_text b) v)), b).

(** The closure of [handleSubmit] holds the [email] and [password] of the
    render the form was submitted from. *)
Definition handleSubmit : L unit :=
  let* credentials := (λ b, (Ok (email (page b), password (page b)), b)) in
  setError "" ;;;
  setLoading true ;;;
  finally
    (catching
       (let* response :=
          post (mk_login_request "/v1/auth/login" "application/json"
                  (VObj [("email", VStr credentials.1); ("password", VStr credentials.2)])) in
        (if negb (response_ok response) then
           let* data := response_json response in
           let* detail := read data "detail" in
           let* failure := new_Error (js_or detail (VStr "Login failed")) in
           raise failure
         else pure tt) ;;;
        let* data := response_json response in
        let* token := read data "access_token" in
        (* Store token *)
        localStorage_setItem "access_token" token ;;;
        (* Redirect to dashboard *)
        router_push "/dashboard")
       (λ err, setError (message err)))
    (setLoading false).

(** What the form shows of its state: the error banner ([error && ...]),
    and the submit button, disabled and relabelled while [loading]. *)
Record login_view : Type := mk_login_view {
  banner : option string;
  button_disabled : bool;
  button_label : string
}.

Definition render_login (f : form) : login_view :=
  mk_login_view (if bool_decide (error f = "") then None else Some (error f))
                (submitting f)
                (if submitting f then "Signing in..." else "Sign in").

(** What the user can do on the page. *)
Inductive login_event : Type :=
| TypeEmail (s : string)
| TypePassword (s : string)
| Submit.

Definition on_event (e : login_event) : L unit :=
  match e with
  | TypeEmail s => setEmail s
  | TypePassword s => setPassword s
  | Submit => handleSubmit
  end.

Definition after (b : browser) (e : login_event) : browser := (on_event e b).2.

Definition session (es : list login_event) (b : browser) : browser := foldl after b es.

(** How many times a session submits the form. *)
Fixpoint submits (es : list login_event) : nat :=
  match es with
  | [] => 0
  | Submit :: es' => S (submits es')
  | _ :: es' => submits es'
  end.

(** The request [handleSubmit] sends from a form. *)
Definition login_request_of (f : form) : login_request :=
  mk_login_request "/v1/auth/login" "application/json"
    (VObj [("email", VStr (email f)); ("password", VStr (password f))]).

(** The answer that lets [handleSubmit] store a token: ok, JSON, and not
    null or undefined. *)
Definition granted (r : login_reply) : option value :=
  match r with
  | Answer true (Json data) =>
      match get_prop data "access_token" with
      | Ok token => Some token
      | Err _ => None
      end
  | _ => None
  end.

(** The message [handleSubmit] ends up showing for an answer that does not
    grant a token. *)
Definition refusal_message (b : browser) (r : login_reply) : string :=
  match r with
  | Unreachable m => m
  | Answer _ (NotJson m) => m
  | Answer false (Json data) =>
      match get_prop data "detail" with
      | Ok detail => to_string (number_text b) (js_or detail (VStr "Login failed"))
      | Err _ => null_read b data "detail"
      end
  | Answer true (Json data) => null_read b data "access_token"
  end.

(** The dashboard page opened in the browser the login page leaves behind:
    the same localStorage and address, a component not yet mounted. *)
Definition open_dashboard (b : browser) (net : nat → reply) : world :=
  mk_world initial_component (storage b) (url b) [] net [] None.

(** Servers for the examples: one that refuses with a reason, one that
    grants a token, one that answers ok without a token. *)
Definition refusing_server (k : nat) : login_reply :=
  Answer false (Json (VObj [("detail", VStr "Incorrect email or password")])).

Definition granting_server (k : nat) : login_reply :=
  Answer true (Json (VObj [("access_token", VStr "eyJhbGciOi"); ("token_type", VStr "bearer")])).

Definition tokenless_server (k : nat) : login_reply :=
  Answer true (Json (VObj [("data", VObj [("access_token", VStr "eyJhbGciOi")])])).

(** A browser for the examples: an empty form on /login, in an engine
    that prints the numbers of the examples, small integers, in decimal. *)
Definition example_browser (srv : nat → login_reply) : browser :=
  mk_browser initial_form ∅ "/login" [] srv (λ _ _, "Cannot read properties of null")
             (λ n, pretty n).

End Login.

(** * Properties of the bootstrap script *)

Module InitDbTheory.
Import InitDb.

Lemma create_extension_eq e db :
  create_extension_if_not_exists e db = Ok (with_extension e db).
Proof.
  unfold create_extension_if_not_exists, with_extension.
  by case_bool_decide.
Qed.

Lemma create_enum_eq ty ls db : create_enum ty ls db = Ok (with_type ty ls db).
Proof.
  unfold create_enum, do_ignoring_duplicate_object, create_type_enum, with_type.
  by case_bool_decide.
Qed.

Lemma lookup_type_None ty cat : lookup_type ty cat = None ↔ ty ∉ cat.*1.
Proof.
  induction cat as [|[n ls] cat IH]; simpl.
  - split; [intros _; apply not_elem_of_nil | done].
  - case_bool_decide as Hn; simpl in Hn.
    + split; [done | intros H; exfalso; apply H; subst; left].
    + rewrite IH, not_elem_of_cons. simpl.
      split; [intros H; split; [congruence | done] | intros [_ H]; done].
Qed.

Lemma lookup_type_app ty cat cat' :
  lookup_type ty (cat ++ cat') =
  match lookup_type ty cat with
  | Some ls => Some ls
  | None => lookup_type ty cat'
  end.
Proof.
  induction cat as [|d cat IH]; simpl; [done|].
  by case_bool_decide.
Qed.

(** Looking a type up after an enum-creation block. *)
Lemma type_labels_with_type x ty ls db :
  type_labels (with_type ty ls db) x =
  match type_labels db x with
  | Some l => Some l
  | None => if bool_decide (ty = x) then Some ls else None
  end.
Proof.
  unfold type_labels, with_type.
  case_bool_decide as Hin; simpl.
  - destruct (lookup_type x (types db)) eqn:E; [done|].
    case_bool_decide; [|done]. subst. apply lookup_type_None in E. done.
  - rewrite lookup_type_app. simpl. by destruct (lookup_type x (types db)).
Qed.

Lemma with_type_id ty ls db : ty ∈ (types db).*1 → with_type ty ls db = db.
Proof. intros H. unfold with_type. by rewrite bool_decide_eq_true_2. Qed.

Lemma with_extension_id e db : e ∈ extensions db → with_extension e db = db.
Proof. intros H. unfold with_extension. by rewrite bool_decide_eq_true_2. Qed.

Lemma with_type_names ty ls db x :
  x ∈ (types db).*1 → x ∈ (types (with_type ty ls db)).*1.
Proof.
  intros H. unfold with_type. case_bool_decide; [done|]. simpl.
  rewrite fmap_app. apply elem_of_app. by left.
Qed.

Lemma with_type_declared ty ls db : ty ∈ (types (with_type ty ls db)).*1.
Proof.
  unfold with_type. case_bool_decide; [done|]. simpl.
  rewrite fmap_app. apply elem_of_app. right. simpl. left.
Qed.

Lemma with_type_NoDup ty ls db :
  NoDup (types db).*1 → NoDup (types (with_type ty ls db)).*1.
Proof.
  intros H. unfold with_type. case_bool_decide as Hin; [done|]. simpl.
  rewrite fmap_app. apply NoDup_app. split; [done|]. split.
  - intros x Hx Hx'. simpl in Hx'. apply list_elem_of_singleton in Hx'. by subst.
  - simpl. apply NoDup_singleton.
Qed.

Lemma with_extension_mono e db x :
  x ∈ extensions db → x ∈ extensions (with_extension e db).
Proof.
  intros H. unfold with_extension. case_bool_decide; [done|]. simpl.
  apply elem_of_app. by left.
Qed.

Lemma with_extension_declared e db : e ∈ extensions (with_extension e db).
Proof.
  unfold with_extension. case_bool_decide; [done|]. simpl.
  apply elem_of_app. right. left.
Qed.

Lemma run_script_cons_ok s ss db db' :
  s db = Ok db' → run_script (s :: ss) db = run_script ss db'.
Proof. intros H. simpl. by rewrite H. Qed.

Lemma init_db_unfold rng db :
  ∃ db0,
    db0 = with_type "order_status_enum"
            ["pending"; "submitted"; "filled"; "partially_filled"; "canceled"; "rejected"]
         (with_type "order_type_enum" ["market"; "limit"; "stop"; "stop_limit"]
         (with_type "order_side_enum" ["buy"; "sell"]
         (with_type "account_type_enum" ["paper"; "live"]
         (with_type "subscription_status_enum" ["active"; "canceled"; "past_due"; "paused"]
         (with_type "user_role_enum" ["user"; "admin"; "internal"]
         (with_type "put_call_enum" ["put"; "call"; "both"; "none"]
         (with_type "statement_type_enum" ["income"; "balance"; "cashflow"; "equity"]
         (with_type "processing_status_enum" ["pending"; "processing"; "completed"; "failed"]
         (with_extension "pg_trgm" (with_extension "uuid-ossp" db)))))))))) ∧
    init_db rng db =
      match seed_default_plans rng db0 with
      | Ok db' => (db', [])
      | Err e => (db0, [e])
      end.
Proof.
  eexists. split; [reflexivity|].
  unfold init_db, init_db_sql.
  do 2 (erewrite run_script_cons_ok by apply create_extension_eq).
  do 9 (erewrite run_script_cons_ok by apply create_enum_eq).
  cbn [run_script].
  by destruct (seed_default_plans _ _).
Qed.

Lemma seed_default_plans_types rng db db' :
  seed_default_plans rng db = Ok db' →
  types db' = types db ∧ extensions db' = extensions db.
Proof.
  unfold seed_default_plans. intros H.
  destruct (plans db) as [t|]; [|done].
  destruct (negb _); [done|]. destruct (negb _); [done|].
  destruct (insert_on_conflict_name_do_nothing _ _); simpl in H; [|done].
  by inversion H.
Qed.

Lemma type_labels_with_extension e db x :
  type_labels (with_extension e db) x = type_labels db x.
Proof. unfold type_labels, with_extension. by case_bool_decide. Qed.

Lemma lookup_type_snoc x cat ty ls :
  lookup_type x (cat ++ [(ty, ls)]) =
  match lookup_type x cat with
  | Some l => Some l
  | None => if bool_decide (ty = x) then Some ls else None
  end.
Proof. rewrite lookup_type_app. by destruct (lookup_type x cat). Qed.

Lemma init_db_type_labels rng db x :
  type_labels db x = None →
  type_labels (init_db rng db).1 x = lookup_type x script_enums.
Proof.
  intros Hx.
  destruct (init_db_unfold rng db) as (db0 & Hdb0 & ->).
  transitivity (type_labels db0 x).
  { destruct (seed_default_plans rng db0) as [db'|e] eqn:E; [|done].
    apply seed_default_plans_types in E as [E _].
    unfold type_labels. simpl. by rewrite E. }
  subst db0. rewrite !type_labels_with_type, !type_labels_with_extension, Hx.
  unfold script_enums.
  cbn [lookup_type fst snd].
  repeat (destruct (bool_decide (_ = x)); [reflexivity|]).
  reflexivity.
Qed.

Lemma insert_keeps_indexes vals : ∀ t t',
  insert_on_conflict_name_do_nothing vals t = Ok t' →
  name_unique t' = name_unique t ∧ id_unique t' = id_unique t.
Proof.
  induction vals as [|v vals IH]; intros t t' H; simpl in H.
  - by inversion H.
  - case_bool_decide; [by apply IH|].
    destruct (id_unique t && _); [done|].
    apply IH in H. done.
Qed.

Lemma insert_keeps_rows vals : ∀ t t' r,
  insert_on_conflict_name_do_nothing vals t = Ok t' → r ∈ rows t → r ∈ rows t'.
Proof.
  induction vals as [|v vals IH]; intros t t' r H Hr; simpl in H.
  - by inversion H; subst.
  - case_bool_decide; [by eapply IH|].
    destruct (id_unique t && _); [done|].
    eapply IH; [done|]. simpl. apply elem_of_app. by left.
Qed.

(** After the INSERT every proposed name is in the table. *)
Lemma insert_names_present vals : ∀ t t' v,
  insert_on_conflict_name_do_nothing vals t = Ok t' →
  v ∈ vals → name v ∈ name <$> rows t'.
Proof.
  induction vals as [|v0 vals IH]; intros t t' v H Hv; simpl in H.
  - by apply elem_of_nil in Hv.
  - apply elem_of_cons in Hv as [->|Hv].
    + case_bool_decide as Hin.
      * apply list_elem_of_fmap in Hin as (r & -> & Hr).
        apply list_elem_of_fmap. exists r. split; [done|]. by eapply insert_keeps_rows.
      * destruct (id_unique t && _); [done|].
        apply list_elem_of_fmap. exists v0. split; [done|].
        eapply insert_keeps_rows; [done|]. simpl. apply elem_of_app. right. left.
    + case_bool_decide; [by eapply IH|].
      destruct (id_unique t && _); [done|]. by eapply IH.
Qed.

(** When every proposed name is in the table already, the INSERT changes
    nothing and raises nothing. *)
Lemma insert_all_conflicting vals t :
  (∀ v, v ∈ vals → name v ∈ name <$> rows t) →
  insert_on_conflict_name_do_nothing vals t = Ok t.
Proof.
  induction vals as [|v vals IH]; intros H; simpl; [done|].
  rewrite bool_decide_eq_true_2 by (apply H; left).
  apply IH. intros v' Hv'. apply H. by right.
Qed.

Lemma insert_NoDup_names vals : ∀ t t',
  insert_on_conflict_name_do_nothing vals t = Ok t' →
  NoDup (name <$> rows t) → NoDup (name <$> rows t').
Proof.
  induction vals as [|v vals IH]; intros t t' H Hnd; simpl in H.
  - by inversion H; subst.
  - case_bool_decide as Hin; [by eapply IH|].
    destruct (id_unique t && _); [done|].
    eapply IH; [done|]. simpl. rewrite fmap_app. apply NoDup_app.
    split; [done|]. split; [|apply NoDup_singleton].
    intros x Hx Hx'. apply list_elem_of_singleton in Hx'. by subst.
Qed.

Lemma insert_NoDup_ids vals : ∀ t t',
  insert_on_conflict_name_do_nothing vals t = Ok t' →
  id_unique t = true →
  NoDup (id <$> rows t) → NoDup (id <$> rows t').
Proof.
  induction vals as [|v vals IH]; intros t t' H Hu Hnd; simpl in H.
  - by inversion H; subst.
  - case_bool_decide as Hin; [by eapply IH|].
    rewrite Hu in H. simpl in H.
    case_bool_decide as Hid; [done|].
    eapply IH; [done|done|]. simpl. rewrite fmap_app. apply NoDup_app.
    split; [done|]. split; [|apply NoDup_singleton].
    intros x Hx Hx'. apply list_elem_of_singleton in Hx'. by subst.
Qed.

Lemma seed_names_fixed rng rng' : name <$> seed_values rng = name <$> seed_values rng'.
Proof. reflexivity. Qed.

Lemma seed_default_plans_rerun rng rng' db db' :
  seed_default_plans rng db = Ok db' → seed_default_plans rng' db' = Ok db'.
Proof.
  unfold seed_default_plans. intros H.
  destruct (plans db) as [t|] eqn:Ht; [|done].
  destruct (bool_decide ("uuid-ossp" ∈ extensions db)) eqn:Hext; [|done].
  destruct (name_unique t) eqn:Hnu; [|done]. cbn [negb] in H.
  destruct (insert_on_conflict_name_do_nothing (seed_values rng) t) as [t'|] eqn:Hins;
    cbn [rbind] in H; [|done].
  injection H as <-. cbn [plans extensions]. rewrite Hext. cbn [negb].
  destruct (insert_keeps_indexes _ _ _ Hins) as [-> _]. rewrite Hnu. cbn [negb].
  rewrite insert_all_conflicting; [done|].
  intros v Hv.
  assert (name v ∈ name <$> seed_values rng) as Hn.
  { rewrite (seed_names_fixed rng rng'). apply list_elem_of_fmap. eauto. }
  apply list_elem_of_fmap in Hn as (v1 & -> & Hv1).
  by eapply insert_names_present.
Qed.

Lemma seed_default_plans_wf rng db db' :
  seed_default_plans rng db = Ok db' → wf_database db → wf_database db'.
Proof.
  unfold seed_default_plans. intros H [Hty Hn Hi].
  destruct (plans db) as [t|] eqn:Ht; [|done].
  destruct (negb (bool_decide _)); [done|].
  destruct (name_unique t) eqn:Hnu; [|done]. cbn [negb] in H.
  destruct (insert_on_conflict_name_do_nothing (seed_values rng) t) as [t'|] eqn:Hins;
    cbn [rbind] in H; [|done].
  injection H as <-.
  destruct (insert_keeps_indexes _ _ _ Hins) as [Hnu' Hiu'].
  split; simpl; [done| |].
  - intros t0 [= <-] _. eapply insert_NoDup_names; [done|]. by apply Hn.
  - intros t0 [= <-] Hu. rewrite Hiu' in Hu.
    eapply insert_NoDup_ids; [done|done|]. by apply Hi.
Qed.

Lemma with_type_wf ty ls db : wf_database db → wf_database (with_type ty ls db).
Proof.
  intros [Hty Hn Hi]. split; [by apply with_type_NoDup| |];
    unfold with_type; case_bool_decide; done.
Qed.

Lemma with_extension_wf e db : wf_database db → wf_database (with_extension e db).
Proof.
  intros [Hty Hn Hi]. split; unfold with_extension; case_bool_decide; done.
Qed.

Lemma types_with_extension e db : types (with_extension e db) = types db.
Proof. unfold with_extension. by case_bool_decide. Qed.

Lemma extensions_with_type ty ls db : extensions (with_type ty ls db) = extensions db.
Proof. unfold with_type. by case_bool_decide. Qed.

Lemma plans_with_type ty ls db : plans (with_type ty ls db) = plans db.
Proof. unfold with_type. by case_bool_decide. Qed.

Lemma plans_with_extension e db : plans (with_extension e db) = plans db.
Proof. unfold with_extension. by case_bool_decide. Qed.

(** The database the seed INSERT runs on: the one the extension and
    enum-creation statements leave. *)
Lemma init_db_split (rng : nat → uuid) (db : database) :
  ∃ db0,
    init_db rng db =
      match seed_default_plans rng db0 with
      | Ok db' => (db', [])
      | Err e => (db0, [e])
      end ∧
    plans db0 = plans db ∧
    "uuid-ossp" ∈ extensions db0 ∧ "pg_trgm" ∈ extensions db0 ∧
    (∀ x, x ∈ extensions db → x ∈ extensions db0) ∧
    (∀ x, type_labels db0 x =
          match type_labels db x with
          | Some ls => Some ls
          | None => lookup_type x script_enums
          end) ∧
    (wf_database db → wf_database db0).
Proof.
  destruct (init_db_unfold rng db) as (db0 & Hdb0 & E). exists db0.
  split; [exact E|]. split; [|split; [|split; [|split; [|split]]]].
  - subst db0. by rewrite !plans_with_type, !plans_with_extension.
  - subst db0. rewrite !extensions_with_type.
    apply with_extension_mono, with_extension_declared.
  - subst db0. rewrite !extensions_with_type. apply with_extension_declared.
  - intros x Hx. subst db0. rewrite !extensions_with_type.
    by do 2 apply with_extension_mono.
  - intros x. subst db0.
    rewrite !type_labels_with_type, !type_labels_with_extension.
    destruct (type_labels db x) as [ls|]; [done|].
    unfold script_enums. cbn [lookup_type fst snd].
    repeat (destruct (bool_decide (_ = x)); [reflexivity|]).
    reflexivity.
  - intros Hwf. subst db0. repeat apply with_type_wf. by repeat apply with_extension_wf.
Qed.

(** The labels of a type after the script: those it had, if it existed;
    otherwise those the script declares, if it declares the type. *)
Lemma type_labels_after_script (rng : nat → uuid) (db : database) (ty : string) :
  type_labels (init_db rng db).1 ty =
    match type_labels db ty with
    | Some ls => Some ls
    | None => lookup_type ty script_enums
    end.
Proof.
  destruct (init_db_split rng db) as (db0 & -> & _ & _ & _ & _ & Hty & _).
  destruct (seed_default_plans rng db0) as [db'|e] eqn:E; cbn [fst].
  - destruct (seed_default_plans_types _ _ _ E) as [Et _].
    unfold type_labels in *. by rewrite Et.
  - apply Hty.
Qed.

(** Claim C8, as amended. Once the script has run without raising, running
    it again (whatever identifiers [uuid_generate_v4] then yields) raises
    nothing and leaves the database exactly as the first run left it: every
    enum-creation block meets its type and swallows [duplicate_object], the
    extensions exist, and every seed row conflicts on [name] and is skipped;
    no type name and no plan name occurs twice. Where the [plans] relation
    does not exist, which the script does not create, the first run raises
    [undefined_table] and so does the second. *)
Theorem init_db_rerun (rng1 rng2 : nat → uuid) (db : database) :
  (wf_database db →
   (init_db rng1 db).2 = [] →
   init_db rng2 (init_db rng1 db).1 = ((init_db rng1 db).1, []) ∧
   NoDup (types (init_db rng1 db).1).*1 ∧
   (∀ t, plans (init_db rng1 db).1 = Some t → NoDup (name <$> rows t))) ∧
  (plans db = None →
   (init_db rng1 db).2 = [undefined_table] ∧
   init_db rng2 (init_db rng1 db).1 = ((init_db rng1 db).1, [undefined_table])).
Proof.
  destruct (init_db_unfold rng1 db) as (db0 & Hdb0 & E1).
  assert (∀ db1, types db1 = types db0 → extensions db1 = extensions db0 →
            init_db rng2 db1 =
              match seed_default_plans rng2 db1 with
              | Ok db' => (db', [])
              | Err e => (db1, [e])
              end) as Hready.
  { intros db1 Hty Hext.
    destruct (init_db_unfold rng2 db1) as (db0' & Hdb0' & ->).
    assert (db0' = db1) as ->; [|done].
    subst db0'.
    rewrite (with_extension_id "uuid-ossp"), (with_extension_id "pg_trgm").
    2,3: rewrite Hext; subst db0; rewrite !extensions_with_type.
    2: apply with_extension_declared.
    2: apply with_extension_mono, with_extension_declared.
    repeat (rewrite (with_type_id _ _ db1); [|rewrite Hty; subst db0;
      repeat first [apply with_type_declared | apply with_type_names]]).
    done. }
  rewrite E1. split.
  - intros Hwf Hok.
    destruct (seed_default_plans rng1 db0) as [db1|e] eqn:Hseed; [|done].
    cbn [fst snd] in *.
    assert (wf_database db0) as Hwf0.
    { subst db0. repeat apply with_type_wf. by repeat apply with_extension_wf. }
    assert (wf_database db1) as Hwf1 by (by eapply seed_default_plans_wf).
    destruct (seed_default_plans_types _ _ _ Hseed) as [Hty Hext].
    split; [|split].
    + rewrite (Hready db1 Hty Hext).
      by rewrite (seed_default_plans_rerun _ _ _ _ Hseed).
    + by destruct Hwf1.
    + intros t Ht. destruct Hwf1 as [_ Hn _]. apply Hn; [done|].
      revert Hseed Ht. unfold seed_default_plans.
      destruct (plans db0) as [t0|]; [|done].
      destruct (negb (bool_decide _)); [done|].
      destruct (name_unique t0) eqn:Hnu; [|done]. cbn [negb].
      destruct (insert_on_conflict_name_do_nothing _ _) as [t'|] eqn:Hins; cbn [rbind]; [|done].
      intros [= <-]. cbn [plans]. intros [= <-].
      destruct (insert_keeps_indexes _ _ _ Hins) as [-> _]. done.
  - intros Hnone.
    assert (∀ rng, seed_default_plans rng db0 = Err undefined_table) as Hseed.
    { intros rng. unfold seed_default_plans.
      assert (plans db0 = None) as ->; [|done].
      subst db0. by rewrite !plans_with_type, !plans_with_extension. }
    rewrite Hseed. cbn [fst snd]. split; [done|].
    by rewrite (Hready db0 eq_refl eq_refl), Hseed.
Qed.

Lemma fresh_database_wf : wf_database fresh_database.
Proof.
  split; simpl.
  - apply NoDup_nil_2.
  - intros t [= <-] _. apply NoDup_nil_2.
  - intros t [= <-] _. apply NoDup_nil_2.
Qed.

Lemma enum_accepts_labels db ty ls v :
  type_labels db ty = Some ls → enum_accepts db ty v = true ↔ v ∈ ls.
Proof.
  intros H. unfold enum_accepts. rewrite H. apply bool_decide_eq_true.
Qed.

(** Claim C1, as amended. After the script the values a column of type
    [processing_status_enum] can hold are the labels the type had before,
    if it existed (the enum-creation block then changes nothing), and
    otherwise exactly pending, processing, completed and failed; in that
    case, of the seven states the specification names, the storable ones
    are pending, completed and failed only. *)
Theorem processing_status_values (rng : nat → uuid) (db : database) (v : string) :
  (enum_accepts (init_db rng db).1 "processing_status_enum" v = true
     ↔ v ∈ match type_labels db "processing_status_enum" with
           | Some ls => ls
           | None => ["pending"; "processing"; "completed"; "failed"]
           end) ∧
  (type_labels db "processing_status_enum" = None →
   filter (λ s, enum_accepts (init_db rng db).1 "processing_status_enum" s = true)
          filing_status_states_spec = ["pending"; "completed"; "failed"]).
Proof.
  pose proof (type_labels_after_script rng db "processing_status_enum") as Hl.
  change (lookup_type "processing_status_enum" script_enums)
    with (Some ["pending"; "processing"; "completed"; "failed"]) in Hl.
  split.
  - destruct (type_labels db "processing_status_enum") as [ls|];
      by apply enum_accepts_labels.
  - intros Hnone. rewrite Hnone in Hl.
    unfold enum_accepts. rewrite Hl. reflexivity.
Qed.

(** On a fresh database the type is the script's. *)
Lemma processing_status_values_witness :
  type_labels fresh_database "processing_status_enum" = None ∧
  (enum_accepts (init_db seq_uuid fresh_database).1 "processing_status_enum" "processing" = true
     ↔ "processing" ∈ ["pending"; "processing"; "completed"; "failed"]) ∧
  filter (λ s, enum_accepts (init_db seq_uuid fresh_database).1 "processing_status_enum" s = true)
         filing_status_states_spec = ["pending"; "completed"; "failed"].
Proof.
  split; [reflexivity|].
  destruct (processing_status_values seq_uuid fresh_database "processing") as [Hiff Hspec].
  split; [exact Hiff | exact (Hspec eq_refl)].
Defined.

(** A type that existed before the script keeps its labels: on a database
    that declared the type with the labels pending, fetching and done, the
    script changes nothing of it. *)
Example existing_status_type_keeps_labels :
  type_labels customized_database "processing_status_enum"
    = Some ["pending"; "fetching"; "done"] ∧
  enum_accepts (init_db seq_uuid customized_database).1 "processing_status_enum" "fetching"
    = true ∧
  enum_accepts (init_db seq_uuid customized_database).1 "processing_status_enum" "processing"
    = false.
Proof. repeat split; vm_compute; reflexivity. Qed.

(** Claim C1 as stated fails: on a fresh database the script makes
    [processing] a value a filing status can hold, and [processing] is not
    one of the seven states of the state machine. *)
Lemma processing_status_outside_spec_states :
  ¬ (∀ v, enum_accepts (init_db seq_uuid fresh_database).1 "processing_status_enum" v = true
          → v ∈ filing_status_states_spec).
Proof.
  intros H. specialize (H "processing" eq_refl).
  unfold filing_status_states_spec in H.
  repeat (apply elem_of_cons in H as [H|H]; [discriminate H|]).
  by apply elem_of_nil in H.
Qed.



(** Of the five categories, [holdings-line] is the one the type does not
    have as a label: a statement row cannot carry it. *)
Remark holdings_line_not_a_statement_type :
  enum_accepts (init_db seq_uuid fresh_database).1 "statement_type_enum" "holdings-line"
    = false.
Proof. reflexivity. Qed.

(** The script runs without raising on a fresh database with an empty
    [plans] relation, and can be run again. *)
Lemma init_db_rerun_witness :
  wf_database fresh_database ∧
  (init_db seq_uuid fresh_database).2 = [] ∧
  init_db (λ k, seq_uuid (3 + k)) (init_db seq_uuid fresh_database).1
    = ((init_db seq_uuid fresh_database).1, []) ∧
  NoDup (types (init_db seq_uuid fresh_database).1).*1 ∧
  (∀ t, plans (init_db seq_uuid fresh_database).1 = Some t → NoDup (name <$> rows t)).
Proof.
  split; [apply fresh_database_wf|]. split; [reflexivity|].
  apply (init_db_rerun seq_uuid (λ k, seq_uuid (3 + k)) fresh_database);
    [apply fresh_database_wf | reflexivity].
Defined.

(** Claim C8 as stated fails: on a database in which the migrations have
    not created [plans], the script raises [undefined_table], and executed
    a second time it raises [undefined_table] again. *)
Lemma init_db_rerun_raises_without_plans :
  (init_db seq_uuid database_without_plans).2 = [undefined_table] ∧
  (init_db (λ k, seq_uuid (3 + k)) (init_db seq_uuid database_without_plans).1).2
    = [undefined_table].
Proof. split; reflexivity. Qed.

End InitDbTheory.

(** * Properties of the dashboard page *)

Module DashboardTheory.
Import Dashboard.

Ltac unfold_monad :=
  unfold bind, ret, throw, lift, try_catch, try_finally, not_awaited,
    setUser, setApiKeys, setLoading, setShowKeyModal, setNewKey, update,
    localStorage_getItem, localStorage_removeItem, router_push, console_error,
    clipboard_writeText, fetch, res_json, res_ok in *.

Lemma succeeds_Some r d :
  succeeds r = Some d ↔ ∃ payload, r = Response true (Some payload) ∧ get_prop payload "data" = Ok d.
Proof.
  unfold succeeds. split.
  - destruct r as [|[] [payload|]]; try done.
    destruct (get_prop payload "data") eqn:E; [|done]. intros [= ->]. eauto.
  - intros (payload & -> & ->). done.
Qed.

(** The outcome of [fetchUserData], case by case. *)
Lemma fetchUserData_run (w : world) :
  let n := length (sent w) in
  let token := localStorage w !! "access_token" in
  let rq1 := mk_request GET "/v1/auth/me" None token None in
  let rq2 := mk_request GET "/v1/auth/api-keys" None token None in
  let c := st w in
  (fetchUserData w).2 =
    if no_token token then
      mk_world c (localStorage w) "/login" (sent w) (network w) (console w) (clipboard w)
    else
      match succeeds (network w n) with
      | None =>
          mk_world (mk_component (user c) (apiKeys c) false (showKeyModal c) (newKey c))
            (localStorage w) "/login" (sent w ++ [rq1]) (network w)
            (console w ++ [match network w n with
                           | Rejected => TypeError
                           | Response false _ => Error "Failed to fetch user"
                           | Response true None => SyntaxError
                           | Response true (Some _) => TypeError
                           end])
            (clipboard w)
      | Some u =>
          match succeeds (network w (S n)) with
          | None =>
              mk_world (mk_component u (apiKeys c) false (showKeyModal c) (newKey c))
                (localStorage w) "/login" ((sent w ++ [rq1]) ++ [rq2]) (network w)
                (console w ++ [match network w (S n) with
                               | Rejected => TypeError
                               | Response false _ => Error "Failed to fetch keys"
                               | Response true None => SyntaxError
                               | Response true (Some _) => TypeError
                               end])
                (clipboard w)
          | Some ks =>
              mk_world (mk_component u ks false (showKeyModal c) (newKey c))
                (localStorage w) (location w) ((sent w ++ [rq1]) ++ [rq2]) (network w)
                (console w) (clipboard w)
          end
      end.
Proof.
  intros n token rq1 rq2 c. subst n token rq1 rq2 c.
  unfold fetchUserData. unfold_monad. cbn beta iota.
  destruct (no_token (localStorage w !! "access_token")) eqn:Htok; [done|].
  unfold succeeds.
  destruct (network w (length (sent w))) as [|[] [p1|]] eqn:E1; cbn; try done.
  destruct (get_prop p1 "data") as [u|e] eqn:Ed1; cbn.
  2:{ destruct p1; simpl in Ed1; try done; by inversion Ed1. }
  rewrite length_app, Nat.add_1_r. cbn.
  destruct (network w (S (length (sent w)))) as [|[] [p2|]] eqn:E2; cbn; try done.
  destruct (get_prop p2 "data") as [ks|e] eqn:Ed2; cbn; [done|].
  destruct p2; simpl in Ed2; try done; by inversion Ed2.
Qed.

Lemma fetchUserData_modal (w : world) :
  showKeyModal (st (fetchUserData w).2) = showKeyModal (st w) ∧
  newKey (st (fetchUserData w).2) = newKey (st w).
Proof.
  rewrite fetchUserData_run.
  destruct (no_token _); [done|].
  destruct (succeeds (network w (length (sent w)))); [|done].
  by destruct (succeeds (network w (S (length (sent w))))).
Qed.

Lemma created_key_Some r k :
  created_key r = Some k ↔
  ∃ payload d, r = Response true (Some payload) ∧
               get_prop payload "data" = Ok d ∧ get_prop d "key" = Ok k.
Proof.
  unfold created_key. split.
  - destruct (succeeds r) as [d|] eqn:E; [|done].
    apply succeeds_Some in E as (payload & -> & Hd).
    destruct (get_prop d "key") eqn:Ek; [|done]. intros [= ->]. eauto.
  - intros (payload & d & -> & Hd & Hk).
    assert (succeeds (Response true (Some payload)) = Some d) as -> by (by apply succeeds_Some; eauto).
    by rewrite Hk.
Qed.

Local Opaque fetchUserData.

(** What [createApiKey] does to the two state variables of the modal. *)
Lemma createApiKey_modal (w : world) :
  (showKeyModal (st (createApiKey w).2), newKey (st (createApiKey w).2)) =
  match created_key (network w (length (sent w))) with
  | Some k => (true, k)
  | None => (showKeyModal (st w), newKey (st w))
  end.
Proof.
  unfold createApiKey. unfold_monad. cbn beta iota.
  unfold created_key, succeeds.
  destruct (network w (length (sent w))) as [|[] [p|]] eqn:E; cbn; try done.
  destruct (get_prop p "data") as [d|] eqn:Ed; cbn; [|done].
  destruct (get_prop d "key") as [k|] eqn:Ek; cbn; [|done].
  match goal with
  | |- context [fetchUserData ?w'] =>
      destruct (fetchUserData_modal w') as [-> ->]
  end.
  done.
Qed.

Lemma revokeKey_modal (keyId : value) (w : world) :
  showKeyModal (st (revokeKey keyId w).2) = showKeyModal (st w) ∧
  newKey (st (revokeKey keyId w).2) = newKey (st w).
Proof.
  unfold revokeKey. unfold_monad. cbn beta iota.
  destruct (network w (length (sent w))) eqn:E; cbn; [done|].
  match goal with
  | |- context [fetchUserData ?w'] =>
      destruct (fetchUserData_modal w') as [-> ->]
  end.
  done.
Qed.

(** Every handler, on the modal. *)
Lemma step_modal (w : world) (e : event) :
  modal_of (step w e) =
  match e with
  | Mount | ClickCopyAndClose => None
  | ClickCreateNewKey =>
      match created_key (network w (length (sent w))) with
      | Some k => Some k
      | None => modal_of w
      end
  | ClickRevoke _ | ClickSignOut => modal_of w
  end.
Proof.
  unfold modal_of, step. destruct e; cbn [handler].
  - unfold mount. unfold_monad. cbn.
    match goal with
    | |- context [fetchUserData ?w'] =>
        destruct (fetchUserData_modal w') as [-> ->]
    end.
    done.
  - pose proof (createApiKey_modal w) as H.
    destruct (created_key _); injection H as -> ->; done.
  - by destruct (revokeKey_modal keyId w) as [-> ->].
  - done.
  - done.
Qed.

Lemma step_opening (w : world) (e : event) :
  showKeyModal (st w) = false → showKeyModal (st (step w e)) = true →
  is_Some (key_created_by e w).
Proof.
  intros Hw Hw'. pose proof (step_modal w e) as H.
  unfold modal_of in H. rewrite Hw, Hw' in H.
  destruct e; try done. cbn [key_created_by].
  destruct (created_key _); [eauto|done].
Qed.

Lemma modal_openings_le (es : list event) : ∀ w,
  (modal_openings es w ≤ keys_created es w)%nat.
Proof.
  induction es as [|e es IH]; intros w; simpl; [done|].
  specialize (IH (step w e)).
  destruct (showKeyModal (st w)) eqn:Hw; simpl; [lia|].
  destruct (showKeyModal (st (step w e))) eqn:Hw'; simpl; [|lia].
  destruct (step_opening w e Hw Hw') as [k ->]. lia.
Qed.

Lemma modal_shows_last_created (es : list event) : ∀ w last v,
  (∀ v', modal_of w = Some v' → last = Some v') →
  modal_of (run es w) = Some v → last_created es w last = Some v.
Proof.
  induction es as [|e es IH]; intros w last v Hinv Hv; simpl in *.
  - by apply Hinv.
  - eapply IH; [|exact Hv].
    intros v'. rewrite step_modal.
    destruct e; cbn [key_created_by]; try done.
    + destruct (created_key _); [done|]. apply Hinv.
    + apply Hinv.
    + apply Hinv.
Qed.

Lemma render_row_fields (key : value) (r : key_row) :
  render_row key = Ok r → r = row_of key.
Proof.
  unfold render_row, row_of, get_prop_opt.
  destruct (get_prop key "id"); cbn; [|done].
  destruct (get_prop key "key_prefix"); cbn; [|done].
  destruct (get_prop key "created_at"); cbn; [|done].
  by intros [= <-].
Qed.

Lemma render_rows_fields (items : list value) : ∀ rs,
  render_rows items = Ok rs → rs = row_of <$> items.
Proof.
  induction items as [|k items IH]; intros rs; cbn.
  - by intros [= <-].
  - destruct (render_row k) as [r|] eqn:Er; cbn; [|done].
    destruct (render_rows items) as [rs'|] eqn:Ers; cbn; [|done].
    intros [= <-]. f_equal; [by apply render_row_fields | by apply IH].
Qed.

Lemma render_keys_fields (keys : value) (rs : list key_row) :
  render_keys keys = Ok (KeyRows rs) →
  ∃ items, keys = VArr items ∧ rs = row_of <$> items.
Proof.
  destruct keys as [| | | |s|items|fields]; cbn; try done.
  - by case_bool_decide.
  - destruct items as [|k items]; [done|].
    destruct (render_rows (k :: items)) as [rs'|] eqn:E; cbn; [|done].
    intros [= <-]. exists (k :: items). split; [done|]. by apply render_rows_fields.
  - by destruct (lookup_field "length" fields) as [| | |[| |]| | |].
Qed.

Lemma render_dashboard (c : component) email full_name keys modal :
  render c = Ok (DashboardView email full_name keys modal) →
  loading c = false ∧
  render_keys (apiKeys c) = Ok keys ∧
  modal = (if showKeyModal c then Some (newKey c) else None).
Proof.
  unfold render. destruct (loading c); [done|].
  destruct (render_keys (apiKeys c)); cbn; [|done].
  by intros [= <- <- <- <-].
Qed.

(** Claim C9, as amended. On every load of the page: without a token in
    localStorage no request is sent, [router.push] is called for /login and
    the component stays on its loading placeholder. With a token, if the
    user request or the key-list request fails (rejected, not ok, body not
    JSON, or an unreadable [data]) the error is logged and [router.push] is
    called for /login, but the [finally] block has cleared [loading]: the
    component returns the dashboard markup, with the user of the first
    answer if only the key-list request failed, and an empty key list. The
    router is left on /dashboard exactly when the token is there and both
    requests succeeded, the state then holding their data. *)
Theorem dashboard_load_requires_auth (w : world) :
  (no_token (localStorage w !! "access_token") = true →
     sent (step w Mount) = sent w ∧ location (step w Mount) = "/login" ∧
     render (st (step w Mount)) = Ok LoadingView) ∧
  (no_token (localStorage w !! "access_token") = false →
     succeeds (network w (length (sent w))) = None ∨
     succeeds (network w (S (length (sent w)))) = None →
     location (step w Mount) = "/login" ∧
     length (console (step w Mount)) = S (length (console w)) ∧
     user (st (step w Mount)) =
       match succeeds (network w (length (sent w))) with
       | Some u => u
       | None => VNull
       end ∧
     render (st (step w Mount)) =
       Ok (DashboardView
             (get_prop_opt (user (st (step w Mount))) "email")
             (js_or (get_prop_opt (user (st (step w Mount))) "full_name") (VStr "Not set"))
             NoKeysYet None)) ∧
  (location (step w Mount) = "/dashboard" ↔
     no_token (localStorage w !! "access_token") = false ∧
     ∃ u ks, succeeds (network w (length (sent w))) = Some u ∧
             succeeds (network w (S (length (sent w)))) = Some ks ∧
             user (st (step w Mount)) = u ∧ apiKeys (st (step w Mount)) = ks).
Proof.
  assert (step w Mount =
          (fetchUserData (mk_world initial_component (localStorage w) "/dashboard" (sent w)
                                   (network w) (console w) (clipboard w))).2) as ->.
  { unfold step. cbn [handler]. unfold mount. unfold_monad. reflexivity. }
  rewrite fetchUserData_run. cbn [localStorage sent network st location console clipboard].
  destruct (no_token (localStorage w !! "access_token")) eqn:Htok.
  { split; [done|]. split; [done|]. split; [done|]. by intros [? _]. }
  split; [done|].
  destruct (succeeds (network w (length (sent w)))) as [u|] eqn:E1.
  2:{ split.
      - intros _ _. cbn. rewrite length_app. cbn. split; [done|]. split; [lia|done].
      - split; [done|]. by intros (_ & u & ks & ? & _). }
  destruct (succeeds (network w (S (length (sent w))))) as [ks|] eqn:E2.
  2:{ split.
      - intros _ _. cbn. rewrite length_app. cbn. split; [done|]. split; [lia|done].
      - split; [done|]. by intros (_ & u' & ks & _ & ? & _). }
  split.
  - intros _ [H|H]; done.
  - split; [|done]. intros _. split; [done|]. exists u, ks. done.
Qed.

(** On a load whose user request is refused the [finally] block still
    clears [loading]: the component returns its markup, with no user and no
    keys, while [router.push] has been called for /login. *)
Example refused_load_leaves_page :
  location (step (example_world (Some "t") (λ _, Response false None)) Mount) = "/login" ∧
  render (st (step (example_world (Some "t") (λ _, Response false None)) Mount))
    = Ok (DashboardView VUndefined (VStr "Not set") NoKeysYet None).
Proof. split; vm_compute; reflexivity. Qed.

(** A load without a token. *)
Lemma dashboard_load_requires_auth_witness :
  no_token (localStorage (example_world None example_network) !! "access_token") = true ∧
  sent (step (example_world None example_network) Mount) = [] ∧
  location (step (example_world None example_network) Mount) = "/login" ∧
  render (st (step (example_world None example_network) Mount)) = Ok LoadingView.
Proof.
  split; [reflexivity|].
  apply (dashboard_load_requires_auth (example_world None example_network)).
  reflexivity.
Defined.

(** Claim C9 as stated fails: with a token, a user request that succeeds
    and a key-list request that is refused, the component returns the
    dashboard markup with the user's e-mail, although a request has failed
    and [router.push] has been called for /login. *)
Lemma failed_key_list_load_renders_dashboard :
  no_token (localStorage (example_world (Some "t") network_refusing_key_list)
              !! "access_token") = false ∧
  succeeds (network_refusing_key_list 1) = None ∧
  location (step (example_world (Some "t") network_refusing_key_list) Mount) = "/login" ∧
  render (st (step (example_world (Some "t") network_refusing_key_list) Mount))
    = Ok (DashboardView (VStr "a@b.c") (VStr "Not set") NoKeysYet None).
Proof. repeat split; vm_compute; reflexivity. Qed.

(** Claim C10. The rows of the key list carry the [id], [key_prefix] and
    [created_at] of each key object and nothing else of it; the modal shows
    [newKey] and only while [showKeyModal] is set; after a load, whatever the
    user does, a key on display in the modal is the key the last successful
    creation returned; Copy and Close hides it, and nothing but Copy and
    Close (or a new load of the page) hides an open modal; the modal opens
    at most as many times as keys are created. *)
Theorem full_key_shown_once_per_creation (w : world) (es : list event) :
  (∀ c email full_name rs modal,
     render c = Ok (DashboardView email full_name (KeyRows rs) modal) →
     ∃ items, apiKeys c = VArr items ∧ rs = row_of <$> items) ∧
  (∀ c email full_name keys modal,
     render c = Ok (DashboardView email full_name keys modal) →
     modal = if showKeyModal c then Some (newKey c) else None) ∧
  (∀ v, modal_of (run (Mount :: es) w) = Some v →
        last_created (Mount :: es) w None = Some v) ∧
  modal_of (step w ClickCopyAndClose) = None ∧
  (∀ e, modal_of w ≠ None → modal_of (step w e) = None →
        e = ClickCopyAndClose ∨ e = Mount) ∧
  (modal_openings es w ≤ keys_created es w)%nat.
Proof.
  split; [|split; [|split; [|split; [|split]]]].
  - intros c email full_name rs modal H.
    apply render_dashboard in H as (_ & H & _). by apply render_keys_fields.
  - intros c email full_name keys modal H.
    by apply render_dashboard in H as (_ & _ & H).
  - intros v Hv. cbn [run foldl] in Hv. cbn [last_created key_created_by].
    eapply modal_shows_last_created; [|exact Hv].
    intros v'. by rewrite step_modal.
  - by rewrite step_modal.
  - intros e Hw He. rewrite step_modal in He.
    destruct e; auto; try done.
    by destruct (created_key _).
  - apply modal_openings_le.
Qed.

(** A session that loads the page and creates a key. *)
Lemma full_key_shown_once_per_creation_witness :
  modal_of (run [Mount; ClickCreateNewKey] (example_world (Some "t") example_network))
    = Some (VStr "aihf_live_cd4567") ∧
  last_created [Mount; ClickCreateNewKey] (example_world (Some "t") example_network) None
    = Some (VStr "aihf_live_cd4567").
Proof.
  split; [vm_compute; reflexivity|].
  apply (full_key_shown_once_per_creation
           (example_world (Some "t") example_network) [ClickCreateNewKey]).
  vm_compute. reflexivity.
Defined.

End DashboardTheory.

(** * Properties of the pipeline contracts *)

Module PipelineTheory.
Import Pipeline.

Section FetcherFacts.
Variable cfg : fetch_config.
Variable source : string → nat → attempt_result.
Variable jitter : nat → Z.
Variable locator : string.

(* the run ends at attempt [k]: no further delay, no earlier attempt *)
Local Ltac finish_last k :=
  replace (k - 0 - k)%nat with 0%nat by lia; rewrite Nat.sub_0_r; cbn;
  rewrite app_nil_r;
  split; [lia|]; split; [done|]; split; [intros j Hj; lia|];
  first [done | repeat split; try lia; cbn; rewrite ?Nat.sub_0_r; done].

(** The loop, started at attempt [k] with [r] retries left. *)
Lemma attempt_from_run (r : nat) : ∀ (k : nat) (slept : list Z),
  (∀ j s, source locator j = Failed s → retryable s = true) →
  (k < attempts_made (attempt_from cfg source jitter locator r k slept) ≤ k + r + 1)%nat ∧
  waits (attempt_from cfg source jitter locator r k slept) =
    (slept ++ (backoff cfg jitter <$>
               seq k (attempts_made (attempt_from cfg source jitter locator r k slept) - 1 - k)))%list ∧
  (∀ j, (k ≤ j < attempts_made (attempt_from cfg source jitter locator r k slept) - 1)%nat →
        ∃ s, source locator j = Failed s) ∧
  match outcome (attempt_from cfg source jitter locator r k slept) with
  | Ok (raw, ct) =>
      source locator (attempts_made (attempt_from cfg source jitter locator r k slept) - 1)
        = Fetched raw ct
  | Err (FetchFailed l s n) =>
      l = locator ∧ n = attempts_made (attempt_from cfg source jitter locator r k slept) ∧
      n = (k + r + 1)%nat ∧ source locator (n - 1) = Failed s
  end.
Proof.
  induction r as [|r IH]; intros k slept Hclass; cbn [attempt_from].
  - destruct (source locator k) as [raw ct|s] eqn:Ek; cbn.
    + finish_last k.
    + finish_last k.
  - destruct (source locator k) as [raw ct|s] eqn:Ek; cbn.
    + finish_last k.
    + rewrite (Hclass k s Ek).
      destruct (IH (S k) (slept ++ [backoff cfg jitter k])%list Hclass) as (Hn & Hw & Hf & Ho).
      set (run := attempt_from cfg source jitter locator r (S k)
                    (slept ++ [backoff cfg jitter k])%list) in *.
      split; [lia|]. split; [|split].
      * rewrite Hw, <- app_assoc. f_equal.
        replace (attempts_made run - 1 - k)%nat
          with (S (attempts_made run - 1 - S k)) by lia.
        done.
      * intros j Hj. destruct (decide (j = k)) as [->|Hne]; [eauto|].
        apply Hf. lia.
      * destruct (outcome run) as [[raw ct]|[l s' n]]; [done|].
        destruct Ho as (-> & -> & Hn' & Hs). repeat split; [lia | done].
Qed.
End FetcherFacts.

(** Claim C5. With a cap of at least one attempt and failures all of the
    429/5xx class, [fetch] makes at most [max_attempts] attempts, sleeps the
    exponential backoff with jitter between them, and returns [FetchFailed]
    exactly when all [max_attempts] attempts failed, carrying the locator,
    the status of the last attempt and the attempt count; it never reports
    [FetchFailed] before the last attempt has been made. *)
Theorem fetch_retries_up_to_cap (cfg : fetch_config) (source : string → nat → attempt_result)
    (jitter : nat → Z) (locator : string) :
  (1 ≤ max_attempts cfg)%nat →
  (∀ k s, source locator k = Failed s → retryable s = true) →
  (attempts_made (fetch cfg source jitter locator) ≤ max_attempts cfg)%nat ∧
  waits (fetch cfg source jitter locator) =
    (backoff cfg jitter <$> seq 0 (attempts_made (fetch cfg source jitter locator) - 1)) ∧
  (∀ l s n,
     outcome (fetch cfg source jitter locator) = Err (FetchFailed l s n) ↔
     l = locator ∧ n = max_attempts cfg ∧
     source locator (max_attempts cfg - 1) = Failed s ∧
     ∀ k, (k < max_attempts cfg)%nat → ∃ s', source locator k = Failed s') ∧
  (∀ l s n,
     outcome (fetch cfg source jitter locator) = Err (FetchFailed l s n) →
     attempts_made (fetch cfg source jitter locator) = max_attempts cfg).
Proof.
  intros Hcap Hclass. unfold fetch.
  destruct (attempt_from_run cfg source jitter locator (max_attempts cfg - 1) 0 [] Hclass)
    as (Hn & Hw & Hf & Ho).
  set (run := attempt_from cfg source jitter locator (max_attempts cfg - 1) 0 []) in *.
  split; [lia|]. split; [|split].
  - rewrite Hw. cbn. by rewrite Nat.sub_0_r.
  - intros l s n. split.
    + intros E. rewrite E in Ho. destruct Ho as (-> & -> & Hn' & Hs).
      assert (attempts_made run = max_attempts cfg) as Hm by lia.
      rewrite Hm in *. repeat split; [done|].
      intros k Hk. destruct (decide (k = max_attempts cfg - 1)%nat) as [->|Hne]; [eauto|].
      apply Hf. lia.
    + intros (-> & -> & Hs & Hall).
      destruct (outcome run) as [[raw ct]|[l s' n]].
      * destruct (Hall (attempts_made run - 1)%nat) as [s' Hs']; [lia|]. congruence.
      * destruct Ho as (-> & -> & Hn' & Hs').
        assert (attempts_made run = max_attempts cfg) as Hm by lia.
        rewrite Hm in *. congruence.
  - intros l s n E. rewrite E in Ho. destruct Ho as (-> & -> & Hn' & Hs). lia.
Qed.

(** Claim C6. With an alias table that resolves the tag Revenue to the
    income key revenue, the declared value 1234 in thousands, for an annual
    filing whose period ends on 2023-12-31, is normalized to the single
    fact (income, revenue, 1234000, year 2023, no quarter). *)
Theorem normalize_revenue_example (alias_table : list (string * (category * string)))
    (quarter_of : date → Z) (f : filing) (u cur : string) (off : nat) :
  resolve_alias "Revenue" alias_table = Mapped income "revenue" →
  form f = annual_report →
  period_end f = mk_date 2023 12 31 →
  rbind (parse_declared_fact "Revenue" "1234" thousands u cur off)
        (λ i, Ok (normalize alias_table quarter_of f [i]))
  = Ok [mk_fact (Mapped income "revenue") 1234000 u cur (mk_period 2023 None)
                ("Revenue", off)].
Proof.
  intros Halias Hform Hend.
  assert (parse_declared_fact "Revenue" "1234" thousands u cur off
          = Ok (mk_intermediate "Revenue" 1234 thousands u cur off)) as -> by reflexivity.
  unfold normalize, normalize_fact, derive_period. cbn.
  by rewrite Halias, Hform, Hend.
Qed.

Section PersistenceFacts.
Local Open Scope list_scope.

Lemma filter_none {A} (P : A → Prop) `{∀ x, Decision (P x)} (l : list A) :
  Forall (λ x, ¬ P x) l → filter P l = [].
Proof.
  induction 1 as [|x l Hx Hl IH]; [done|]. by rewrite filter_cons_False.
Qed.

Lemma upsert_keys (r : fact_row) (table : list fact_row) :
  row_key <$> upsert r table =
  if bool_decide (row_key r ∈ row_key <$> table) then row_key <$> table
  else (row_key <$> table) ++ [row_key r].
Proof.
  induction table as [|r' table IH]; cbn.
  - rewrite bool_decide_eq_false_2; [done|]. apply not_elem_of_nil.
  - destruct (decide (row_key r' = row_key r)) as [Hk|Hk].
    + rewrite (bool_decide_eq_true_2 _ Hk). cbn.
      rewrite bool_decide_eq_true_2; [by rewrite Hk|]. rewrite Hk. left.
    + rewrite (bool_decide_eq_false_2 _ Hk). cbn. rewrite IH.
      destruct (decide (row_key r ∈ row_key <$> table)) as [Hin|Hin].
      * rewrite (bool_decide_eq_true_2 _ Hin).
        rewrite bool_decide_eq_true_2; [done|]. by right.
      * rewrite (bool_decide_eq_false_2 _ Hin).
        rewrite bool_decide_eq_false_2; [done|].
        intros [E|?]%elem_of_cons; [|done]. by apply Hk.
Qed.

Lemma upsert_NoDup (r : fact_row) (table : list fact_row) :
  NoDup (row_key <$> table) → NoDup (row_key <$> upsert r table).
Proof.
  intros H. rewrite upsert_keys. case_bool_decide as Hin; [done|].
  apply NoDup_app. split; [done|]. split; [|apply NoDup_singleton].
  intros k Hk Hk'. apply list_elem_of_singleton in Hk'. by subst.
Qed.

(** Rows of other keys are not touched by an upsert. *)
Lemma filter_upsert_ne (k : string * line_item * fiscal_period) (r : fact_row)
    (table : list fact_row) :
  row_key r ≠ k →
  filter (λ r', row_key r' = k) (upsert r table) = filter (λ r', row_key r' = k) table.
Proof.
  intros Hne. induction table as [|r' table IH]; cbn [upsert].
  - by rewrite filter_cons_False.
  - destruct (decide (row_key r' = row_key r)) as [Hk|Hk].
    + rewrite (bool_decide_eq_true_2 _ Hk).
      rewrite !filter_cons_False; [done| |]; congruence.
    + rewrite (bool_decide_eq_false_2 _ Hk).
      rewrite !filter_cons. by rewrite IH.
Qed.

(** After an upsert exactly one row has the key, and it is the new row. *)
Lemma filter_upsert_eq (r : fact_row) (table : list fact_row) :
  NoDup (row_key <$> table) →
  filter (λ r', row_key r' = row_key r) (upsert r table) = [r].
Proof.
  induction table as [|r' table IH]; cbn [upsert]; intros Hnd.
  - by rewrite filter_cons_True.
  - rewrite fmap_cons in Hnd. apply NoDup_cons in Hnd as [Hnotin Hnd].
    destruct (decide (row_key r' = row_key r)) as [Hk|Hk].
    + rewrite (bool_decide_eq_true_2 _ Hk).
      rewrite filter_cons_True by done. f_equal.
      apply filter_none. apply Forall_forall. intros x Hx E.
      apply Hnotin. rewrite Hk, <- E. apply list_elem_of_fmap. eauto.
    + rewrite (bool_decide_eq_false_2 _ Hk).
      rewrite filter_cons_False by done. by apply IH.
Qed.

Lemma upsert_filing (acc : string) (r : fact_row) (table : list fact_row) :
  filing_id r = acc → Forall (λ r', filing_id r' = acc) table →
  Forall (λ r', filing_id r' = acc) (upsert r table).
Proof.
  intros Hr. induction 1 as [|r' table Hr' Ht IH]; cbn [upsert].
  - by constructor.
  - destruct (bool_decide _); constructor; done.
Qed.

(** An upsert walks past the rows of other filings. *)
Lemma upsert_app_other (r : fact_row) (base table : list fact_row) :
  Forall (λ r', filing_id r' ≠ filing_id r) base →
  upsert r (base ++ table) = base ++ upsert r table.
Proof.
  induction 1 as [|r' base Hr' Hb IH]; [done|].
  rewrite <- !app_comm_cons. cbn [upsert].
  rewrite bool_decide_eq_false_2; [by rewrite IH|].
  unfold row_key. intros [= E _ _]. done.
Qed.

Lemma upsert_all_app_other (acc : string) (facts : list normalized_fact) :
  ∀ base table,
  Forall (λ r', filing_id r' ≠ acc) base →
  upsert_all acc (base ++ table) facts = base ++ upsert_all acc table facts.
Proof.
  induction facts as [|x facts IH]; intros base table Hb; cbn [upsert_all foldl]; [done|].
  rewrite upsert_app_other by done. by apply IH.
Qed.

Lemma upsert_all_filing (acc : string) (facts : list normalized_fact) :
  ∀ table, Forall (λ r', filing_id r' = acc) table →
           Forall (λ r', filing_id r' = acc) (upsert_all acc table facts).
Proof.
  induction facts as [|x facts IH]; intros table Ht; cbn; [done|].
  apply IH. by apply upsert_filing.
Qed.

Lemma upsert_all_NoDup (acc : string) (facts : list normalized_fact) :
  ∀ table, NoDup (row_key <$> table) → NoDup (row_key <$> upsert_all acc table facts).
Proof.
  induction facts as [|x facts IH]; intros table Ht; cbn; [done|].
  apply IH. by apply upsert_NoDup.
Qed.

Lemma others_not_filing (acc : string) (table : list fact_row) :
  Forall (λ r', filing_id r' ≠ acc) (filter (λ r, filing_id r ≠ acc) table).
Proof. apply Forall_forall. intros r Hr. by apply list_elem_of_filter in Hr as [? _]. Qed.

(** The table after a commit that went through: the rows of the other
    filings, then the rows of this one. *)
Lemma commit_shape (table : list fact_row) (f : filing) (facts : list normalized_fact) :
  commit true table f facts =
  Ok (filter (λ r, filing_id r ≠ accession f) table ++ upsert_all (accession f) [] facts).
Proof.
  unfold commit.
  rewrite <- (app_nil_r (filter _ table)) at 1.
  rewrite upsert_all_app_other; [done|]. apply others_not_filing.
Qed.

Lemma filter_others_shape (acc : string) (table own : list fact_row) :
  Forall (λ r', filing_id r' = acc) own →
  filter (λ r, filing_id r ≠ acc)
         (filter (λ r, filing_id r ≠ acc) table ++ own)
  = filter (λ r, filing_id r ≠ acc) table.
Proof.
  intros Hown. rewrite filter_app.
  replace (filter (λ r, filing_id r ≠ acc) own) with (@nil fact_row).
  - rewrite app_nil_r. induction table as [|r table IH]; [done|].
    rewrite filter_cons. case_decide as Hr; [|done].
    rewrite filter_cons_True by done. by rewrite IH.
  - symmetry. apply filter_none. eapply Forall_impl; [exact Hown|].
    cbn. intros r E Hne. done.
Qed.
End PersistenceFacts.

Section PersistenceTheorems.
Local Open Scope list_scope.

Lemma filter_keys_NoDup (P : fact_row → Prop) `{∀ x, Decision (P x)} (table : list fact_row) :
  NoDup (row_key <$> table) → NoDup (row_key <$> filter P table).
Proof.
  induction table as [|r table IH]; [done|].
  rewrite fmap_cons, NoDup_cons. intros [Hnotin Hnd].
  rewrite filter_cons. destruct (decide (P r)); [|by apply IH].
  rewrite fmap_cons. apply NoDup_cons. split; [|by apply IH].
  intros (r' & E & Hr')%list_elem_of_fmap. apply Hnotin.
  apply list_elem_of_fmap. exists r'. split; [done|].
  by apply list_elem_of_filter in Hr' as [_ ?].
Qed.

Lemma committed_NoDup (available : bool) (table : list fact_row) (f : filing)
    (facts : list normalized_fact) :
  NoDup (row_key <$> table) → NoDup (row_key <$> committed available table f facts).
Proof.
  intros Hnd. unfold committed, commit. destruct available; [|done].
  apply upsert_all_NoDup. by apply filter_keys_NoDup.
Qed.

Lemma reachable_NoDup (table : list fact_row) :
  reachable table → NoDup (row_key <$> table).
Proof.
  induction 1 as [|available table f facts Hr IH].
  - apply NoDup_nil_2.
  - by apply committed_NoDup.
Qed.

Lemma filter_upsert_all_ne (k : string * line_item * fiscal_period) (acc : string)
    (facts : list normalized_fact) : ∀ table,
  (∀ y, y ∈ facts → row_key (mk_fact_row acc y) ≠ k) →
  filter (λ r, row_key r = k) (upsert_all acc table facts)
  = filter (λ r, row_key r = k) table.
Proof.
  induction facts as [|x facts IH]; intros table Hne; cbn [upsert_all foldl]; [done|].
  fold (upsert_all acc (upsert (mk_fact_row acc x) table) facts).
  rewrite IH by (intros y Hy; apply Hne; by right).
  apply filter_upsert_ne. apply Hne. left.
Qed.

Lemma committed_idem (available : bool) (table : list fact_row) (f : filing)
    (facts : list normalized_fact) :
  committed available (committed true table f facts) f facts = committed true table f facts.
Proof.
  unfold committed at 1. destruct available; [|done].
  unfold committed. rewrite !commit_shape.
  f_equal. apply filter_others_shape.
  apply upsert_all_filing. constructor.
Qed.
End PersistenceTheorems.

(** Claim C2. Processing the same bytes of a filing twice leaves the
    persisted facts as processing them once does: once one commit has gone
    through, a second one, successful or not, changes nothing. *)
Theorem commit_idempotent (parse : bytes → result parse_error (list intermediate_fact))
    (alias_table : list (string * (category * string))) (quarter_of : date → Z)
    (first second : bool) (table : list fact_row) (f : filing) (raw : bytes) :
  process parse alias_table quarter_of second
    (process parse alias_table quarter_of first table f raw) f raw
  = process parse alias_table quarter_of (first || second) table f raw.
Proof.
  unfold process. destruct (parse raw) as [facts|e]; [|done].
  destruct first; cbn [orb].
  - apply committed_idem.
  - done.
Qed.

(** Claim C3. In every table reached by commits no two rows share the key
    (filing ID, category and line-item key, fiscal period), and this stays
    so after a further commit; after committing a filing, the one row
    stored under the key of a fact is the last fact committed with that
    key, whatever was stored under it before. *)
Theorem fact_key_unique (table : list fact_row) (f : filing)
    (facts later : list normalized_fact) (x : normalized_fact) :
  reachable table →
  (∀ y, y ∈ later → (item y, period y) ≠ (item x, period x)) →
  NoDup (row_key <$> table) ∧
  NoDup (row_key <$> committed true table f (facts ++ x :: later)) ∧
  filter (λ r, row_key r = row_key (mk_fact_row (accession f) x))
         (committed true table f (facts ++ x :: later))
  = [mk_fact_row (accession f) x].
Proof.
  intros Hreach Hlater.
  pose proof (reachable_NoDup table Hreach) as Hnd.
  split; [done|]. split; [by apply committed_NoDup|].
  unfold committed. rewrite commit_shape, filter_app.
  rewrite (filter_none _ (filter _ table)).
  2:{ eapply Forall_impl; [apply others_not_filing|].
      cbn. intros r Hr [= E _ _]. done. }
  cbn [app]. unfold upsert_all at 1. rewrite foldl_app. cbn [foldl].
  fold (upsert_all (accession f) [] facts).
  fold (upsert_all (accession f)
          (upsert (mk_fact_row (accession f) x) (upsert_all (accession f) [] facts)) later).
  rewrite filter_upsert_all_ne.
  - apply filter_upsert_eq. apply upsert_all_NoDup. cbn. apply NoDup_nil_2.
  - intros y Hy [= E1 E2]. apply (Hlater y Hy). congruence.
Qed.

(** A source that always answers 503, under the default cap. *)
Lemma fetch_retries_up_to_cap_witness :
  (1 ≤ max_attempts example_fetch_config)%nat ∧
  (∀ k s, (λ (_ : string) (_ : nat), Failed 503) "filing.xml" k = Failed s →
          retryable s = true) ∧
  (∀ l s n,
     outcome (fetch example_fetch_config (λ _ _, Failed 503) (λ _, 0%Z) "filing.xml")
       = Err (FetchFailed l s n) →
     attempts_made (fetch example_fetch_config (λ _ _, Failed 503) (λ _, 0%Z) "filing.xml")
       = max_attempts example_fetch_config).
Proof.
  assert (1 ≤ max_attempts example_fetch_config)%nat as H1 by (vm_compute; lia).
  assert (∀ k s, (λ (_ : string) (_ : nat), Failed 503) "filing.xml" k = Failed s →
                 retryable s = true) as H2
    by (intros k s [= <-]; reflexivity).
  split; [exact H1|]. split; [exact H2|].
  apply (fetch_retries_up_to_cap example_fetch_config (λ _ _, Failed 503) (λ _, 0%Z)
           "filing.xml" H1 H2).
Defined.

(** The example on a concrete alias table and filing. *)
Lemma normalize_revenue_example_witness :
  resolve_alias "Revenue" example_alias_table = Mapped income "revenue" ∧
  form example_filing = annual_report ∧
  period_end example_filing = mk_date 2023 12 31 ∧
  rbind (parse_declared_fact "Revenue" "1234" thousands "USD" "USD" 0)
        (λ i, Ok (normalize example_alias_table (λ d, (month d - 1) / 3 + 1)%Z
                            example_filing [i]))
  = Ok [mk_fact (Mapped income "revenue") 1234000 "USD" "USD" (mk_period 2023 None)
                ("Revenue", 0%nat)].
Proof.
  split; [reflexivity|]. split; [reflexivity|]. split; [reflexivity|].
  apply (normalize_revenue_example example_alias_table (λ d, (month d - 1) / 3 + 1)%Z
           example_filing "USD" "USD" 0); reflexivity.
Defined.

(** Re-processing a filing whose revenue fact is already stored. *)
Lemma fact_key_unique_witness :
  reachable (committed true [] example_filing [example_fact 100]) ∧
  filter (λ r, row_key r = row_key (mk_fact_row (accession example_filing) (example_fact 200)))
         (committed true (committed true [] example_filing [example_fact 100])
                    example_filing ([] ++ example_fact 200 :: []))
  = [mk_fact_row (accession example_filing) (example_fact 200)].
Proof.
  assert (reachable (committed true [] example_filing [example_fact 100])) as H1
    by (apply reachable_commit, reachable_empty).
  split; [exact H1|].
  apply (fact_key_unique _ example_filing [] [] (example_fact 200) H1).
  intros y Hy. by apply elem_of_nil in Hy.
Defined.

End PipelineTheory.

(** * Further properties of the bootstrap script *)

Module InitDbMore.
Import InitDb InitDbTheory.
Local Open Scope list_scope.

Lemma seed_errors (rng : nat → uuid) (db : database) (e : sql_error) :
  "uuid-ossp" ∈ extensions db →
  seed_default_plans rng db = Err e →
  (plans db = None ∧ e = undefined_table) ∨
  (∃ t, plans db = Some t ∧ name_unique t = false ∧ e = invalid_column_reference) ∨
  (∃ t, plans db = Some t ∧ name_unique t = true ∧ e = unique_violation ∧
        insert_on_conflict_name_do_nothing (seed_values rng) t = Err unique_violation).
Proof.
  intros Hext. unfold seed_default_plans.
  destruct (plans db) as [t|]; [|intros [= <-]; by left].
  rewrite (bool_decide_eq_true_2 _ Hext). cbn [negb].
  destruct (name_unique t) eqn:Hnu; cbn [negb].
  - destruct (insert_on_conflict_name_do_nothing (seed_values rng) t) as [t'|e'] eqn:Hins;
      cbn [rbind]; [done|].
    intros [= <-]. right. right. exists t.
    assert (e' = unique_violation) as ->; [|done].
    clear -Hins. revert t Hins. generalize (seed_values rng).
    induction l as [|v vs IH]; intros t; cbn [insert_on_conflict_name_do_nothing]; [done|].
    destruct (bool_decide _); [apply IH|].
    destruct (id_unique t && _); [by intros [= <-] | apply IH].
  - intros [= <-]. right. left. eauto.
Qed.

(** X1. After the script, whatever it raised, a type that existed before
    has the labels it had (the enum-creation block swallows
    [duplicate_object] and changes nothing), a type that did not exist has
    the labels the script declares for it, or none if the script does not
    declare it; both extensions are installed. *)
Theorem types_after_script (rng : nat → uuid) (db : database) (ty : string) :
  type_labels (init_db rng db).1 ty =
    match type_labels db ty with
    | Some ls => Some ls
    | None => lookup_type ty script_enums
    end ∧
  "uuid-ossp" ∈ extensions (init_db rng db).1 ∧
  "pg_trgm" ∈ extensions (init_db rng db).1.
Proof.
  destruct (init_db_split rng db) as (db0 & -> & _ & Hu & Hp & _ & Hty & _).
  destruct (seed_default_plans rng db0) as [db'|e] eqn:E; cbn [fst].
  - destruct (seed_default_plans_types _ _ _ E) as [Et Ee].
    unfold type_labels in *. rewrite Et, Ee. by rewrite <- Hty.
  - by rewrite Hty.
Qed.

(** X2. The script never reports [duplicate_object]. Without a [plans]
    relation it reports [undefined_table], and without a unique index on
    [plans.name] it reports [invalid_column_reference], in each case as the
    only condition; whenever it reports anything, [plans] is as it was. *)
Theorem script_raises_only_from_seed (rng : nat → uuid) (db : database) :
  (duplicate_object ∉ snd (init_db rng db)) ∧
  (plans db = None → (init_db rng db).2 = [undefined_table]) ∧
  (∀ t, plans db = Some t → name_unique t = false →
        (init_db rng db).2 = [invalid_column_reference]) ∧
  ((init_db rng db).2 ≠ [] → plans (init_db rng db).1 = plans db).
Proof.
  destruct (init_db_split rng db) as (db0 & -> & Hpl & Hu & _).
  destruct (seed_default_plans rng db0) as [db'|e] eqn:E; cbn [fst snd].
  - split; [apply not_elem_of_nil|].
    revert E. unfold seed_default_plans. rewrite Hpl.
    split; [|split].
    + intros Hn. by rewrite Hn in E.
    + intros t Ht Hnu. rewrite Ht, Hnu in E.
      by rewrite (bool_decide_eq_true_2 _ Hu) in E.
    + done.
  - destruct (seed_errors rng db0 e Hu E) as [[Hn ->]|[(t & Ht & Hnu & ->)|(t & Ht & Hnu & -> & _)]].
    + split; [by intros [?|?%elem_of_nil]%elem_of_cons|].
      split; [done|]. split; [|done].
      intros t Ht. rewrite <- Hpl, Hn in Ht. done.
    + split; [by intros [?|?%elem_of_nil]%elem_of_cons|].
      split; [|done]. intros Hn. rewrite <- Hpl, Ht in Hn. done.
    + split; [by intros [?|?%elem_of_nil]%elem_of_cons|].
      split; [|split; [|done]].
      * intros Hn. rewrite <- Hpl, Ht in Hn. done.
      * intros t' Ht' Hnu'. rewrite <- Hpl, Ht in Ht'. congruence.
Qed.

(** The rows of the table after the INSERT: the rows before, then those of
    the proposed rows whose name was new. *)
Lemma insert_appends (vals : list plan_row) : ∀ t t',
  insert_on_conflict_name_do_nothing vals t = Ok t' →
  ∃ new, t' = mk_table (rows t ++ new) (name_unique t) (id_unique t) ∧
         sublist new vals ∧
         ∀ r, r ∈ new → name r ∉ name <$> rows t.
Proof.
  induction vals as [|v vs IH]; intros t t' H; cbn [insert_on_conflict_name_do_nothing] in H.
  - injection H as <-. exists []. rewrite app_nil_r. split; [by destruct t|].
    split; [done|]. intros r Hr. by apply elem_of_nil in Hr.
  - destruct (decide (name v ∈ name <$> rows t)) as [Hin|Hin].
    + rewrite (bool_decide_eq_true_2 _ Hin) in H.
      destruct (IH t t' H) as (new & -> & Hsub & Hnew).
      exists new. split; [done|]. split; [by apply sublist_cons|done].
    + rewrite (bool_decide_eq_false_2 _ Hin) in H.
      destruct (id_unique t && _); [done|].
      destruct (IH _ t' H) as (new & -> & Hsub & Hnew). cbn in *.
      exists (v :: new). rewrite <- app_assoc. split; [done|].
      split; [by apply sublist_skip|].
      intros r [->|Hr]%elem_of_cons; [done|].
      intros Hr'. apply (Hnew r Hr). rewrite fmap_app. apply elem_of_app. by left.
Qed.

(** X3. The seed INSERT only appends: the rows [plans] held before the
    script are all there afterwards, unchanged and in place, also those
    named like a default plan; the rows added are among the three proposed
    ones, and only under names the table did not hold. *)
Theorem seed_keeps_existing_rows (rng : nat → uuid) (db : database) (t : plans_table) :
  plans db = Some t →
  ∃ new,
    plans (init_db rng db).1 =
      Some (mk_table (rows t ++ new) (name_unique t) (id_unique t)) ∧
    sublist new (seed_values rng) ∧
    (∀ r, r ∈ new → name r ∉ name <$> rows t) ∧
    (length new ≤ 3)%nat.
Proof.
  intros Ht.
  destruct (init_db_split rng db) as (db0 & -> & Hpl & Hu & _).
  assert (∃ new, plans (match seed_default_plans rng db0 with
                        | Ok db' => (db', [])
                        | Err e => (db0, [e])
                        end).1
                 = Some (mk_table (rows t ++ new) (name_unique t) (id_unique t)) ∧
                 sublist new (seed_values rng) ∧
                 (∀ r, r ∈ new → name r ∉ name <$> rows t)) as (new & E & Hsub & Hnew).
  { destruct (seed_default_plans rng db0) as [db'|e] eqn:E; cbn [fst].
    - revert E. unfold seed_default_plans. rewrite Hpl, Ht.
      destruct (negb (bool_decide _)); [done|]. destruct (negb (name_unique t)); [done|].
      destruct (insert_on_conflict_name_do_nothing (seed_values rng) t) as [t'|] eqn:Hins;
        cbn [rbind]; [|done].
      intros [= <-]. cbn [plans].
      destruct (insert_appends _ _ _ Hins) as (new & -> & Hsub & Hnew). eauto.
    - exists []. rewrite Hpl, Ht, app_nil_r. split; [by destruct t|].
      split; [apply sublist_nil_l|]. intros r Hr. by apply elem_of_nil in Hr. }
  exists new. split; [done|]. split; [done|]. split; [done|].
  apply sublist_length in Hsub. exact Hsub.
Qed.

Lemma filter_absent_name (n : string) (l : list plan_row) :
  n ∉ name <$> l → filter (λ r, name r = n) l = [].
Proof.
  induction l as [|r l IH]; [done|].
  rewrite fmap_cons. intros [Hne Hnotin]%not_elem_of_cons.
  rewrite filter_cons_False by congruence. by apply IH.
Qed.

Lemma filter_unique_name (n : string) (l : list plan_row) :
  NoDup (name <$> l) → n ∈ name <$> l →
  length (filter (λ r, name r = n) l) = 1.
Proof.
  induction l as [|r l IH]; intros Hnd Hin; [by apply elem_of_nil in Hin|].
  rewrite fmap_cons in Hnd, Hin. apply NoDup_cons in Hnd as [Hnotin Hnd].
  destruct (decide (name r = n)) as [<-|Hne].
  - rewrite filter_cons_True by done. by rewrite filter_absent_name.
  - rewrite filter_cons_False by done.
    apply IH; [done|]. apply elem_of_cons in Hin as [?|?]; [congruence|done].
Qed.

(** X4. After a run that raised nothing on a well-formed database, each of
    the plans free, pro and enterprise is present in exactly one row. *)
Theorem clean_run_seeds_each_plan_once (rng : nat → uuid) (db : database) (n : string) :
  wf_database db →
  (init_db rng db).2 = [] →
  n ∈ ["free"; "pro"; "enterprise"] →
  ∃ t, plans (init_db rng db).1 = Some t ∧
       length (filter (λ r, name r = n) (rows t)) = 1.
Proof.
  intros Hwf Hok Hn.
  destruct (init_db_split rng db) as (db0 & E & Hpl & Hu & _ & _ & _ & Hwf0).
  rewrite E in *. specialize (Hwf0 Hwf).
  destruct (seed_default_plans rng db0) as [db1|e] eqn:Hseed; [|done]. cbn [fst].
  pose proof (seed_default_plans_wf _ _ _ Hseed Hwf0) as [_ Hnames _].
  revert Hseed Hnames. unfold seed_default_plans.
  destruct (plans db0) as [t0|]; [|done].
  destruct (negb (bool_decide _)); [done|].
  destruct (name_unique t0) eqn:Hnu; [|done]. cbn [negb].
  destruct (insert_on_conflict_name_do_nothing (seed_values rng) t0) as [t'|] eqn:Hins;
    cbn [rbind]; [|done].
  intros [= <-] Hnames. cbn [plans] in *. exists t'. split; [done|].
  apply filter_unique_name.
  - apply Hnames; [done|]. by destruct (insert_keeps_indexes _ _ _ Hins) as [-> _].
  - assert (n ∈ name <$> seed_values rng) as (v & -> & Hv)%list_elem_of_fmap by exact Hn.
    by eapply insert_names_present.
Qed.

(** X6. Unless the first run hit a [unique_violation] (a collision of a
    generated identifier), running the script again ends in the same
    database and reports the same conditions as the first run: a run that
    failed for want of the [plans] relation or of its index fails again in
    the same way and changes nothing. *)
Theorem rerun_reproduces_first_run (rng1 rng2 : nat → uuid) (db : database) :
  unique_violation ∉ snd (init_db rng1 db) →
  init_db rng2 (init_db rng1 db).1 = init_db rng1 db.
Proof.
  intros Hnv.
  destruct (init_db_unfold rng1 db) as (db0 & Hdb0 & E1).
  assert ("uuid-ossp" ∈ extensions db0) as Hu.
  { subst db0. rewrite !extensions_with_type.
    apply with_extension_mono, with_extension_declared. }
  assert (∀ db1, types db1 = types db0 → extensions db1 = extensions db0 →
            init_db rng2 db1 =
              match seed_default_plans rng2 db1 with
              | Ok db' => (db', [])
              | Err e => (db1, [e])
              end) as Hready.
  { intros db1 Hty Hext.
    destruct (init_db_unfold rng2 db1) as (db0' & Hdb0' & ->).
    assert (db0' = db1) as ->; [|done].
    subst db0'.
    rewrite (with_extension_id "uuid-ossp"), (with_extension_id "pg_trgm").
    2,3: rewrite Hext; subst db0; rewrite !extensions_with_type.
    2: apply with_extension_declared.
    2: apply with_extension_mono, with_extension_declared.
    repeat (rewrite (with_type_id _ _ db1); [|rewrite Hty; subst db0;
      repeat first [apply with_type_declared | apply with_type_names]]).
    done. }
  rewrite E1 in *.
  destruct (seed_default_plans rng1 db0) as [db1|e] eqn:Hseed; cbn [fst snd] in *.
  - destruct (seed_default_plans_types _ _ _ Hseed) as [Hty Hext].
    rewrite (Hready db1 Hty Hext).
    by rewrite (seed_default_plans_rerun _ _ _ _ Hseed).
  - rewrite (Hready db0 eq_refl eq_refl).
    destruct (seed_errors rng1 db0 e Hu Hseed)
      as [[Hn ->]|[(t & Ht & Hnu & ->)|(t & Ht & Hnu & -> & _)]].
    + unfold seed_default_plans. by rewrite Hn.
    + unfold seed_default_plans.
      by rewrite Ht, (bool_decide_eq_true_2 _ Hu), Hnu.
    + exfalso. apply Hnv. left.
Qed.

(** A database in which the migrations have not run. *)
Lemma script_raises_only_from_seed_witness :
  plans database_without_plans = None ∧
  (init_db seq_uuid database_without_plans).2 = [undefined_table].
Proof.
  split; [reflexivity|].
  apply (script_raises_only_from_seed seq_uuid database_without_plans). reflexivity.
Defined.

(** A database that already holds a plan named pro. *)
Lemma seed_keeps_existing_rows_witness :
  plans customized_database = Some (mk_table [legacy_pro_plan] true true) ∧
  ∃ new,
    plans (init_db seq_uuid customized_database).1 =
      Some (mk_table (rows (mk_table [legacy_pro_plan] true true) ++ new)
                     (name_unique (mk_table [legacy_pro_plan] true true))
                     (id_unique (mk_table [legacy_pro_plan] true true))) ∧
    sublist new (seed_values seq_uuid) ∧
    (∀ r, r ∈ new → name r ∉ name <$> rows (mk_table [legacy_pro_plan] true true)) ∧
    (length new ≤ 3)%nat.
Proof.
  split; [reflexivity|].
  apply (seed_keeps_existing_rows seq_uuid customized_database
           (mk_table [legacy_pro_plan] true true)).
  reflexivity.
Defined.

(** The plan pro on a fresh database. *)
Lemma clean_run_seeds_each_plan_once_witness :
  wf_database fresh_database ∧
  (init_db seq_uuid fresh_database).2 = [] ∧
  "pro" ∈ ["free"; "pro"; "enterprise"] ∧
  ∃ t, plans (init_db seq_uuid fresh_database).1 = Some t ∧
       length (filter (λ r, name r = "pro") (rows t)) = 1.
Proof.
  assert ("pro" ∈ ["free"; "pro"; "enterprise"]) as Hin by (right; left).
  split; [apply fresh_database_wf|]. split; [reflexivity|]. split; [exact Hin|].
  apply (clean_run_seeds_each_plan_once seq_uuid fresh_database "pro");
    [apply fresh_database_wf | reflexivity | exact Hin].
Defined.

(** A run that fails for want of the relation, run again. *)
Lemma rerun_reproduces_first_run_witness :
  (unique_violation ∉ snd (init_db seq_uuid database_without_plans)) ∧
  init_db (λ k, seq_uuid (3 + k)) (init_db seq_uuid database_without_plans).1
    = init_db seq_uuid database_without_plans.
Proof.
  assert (unique_violation ∉ snd (init_db seq_uuid database_without_plans)) as H
    by compute_done.
  split; [exact H|].
  apply (rerun_reproduces_first_run seq_uuid (λ k, seq_uuid (3 + k))
           database_without_plans H).
Defined.

End InitDbMore.

(** * Further properties of the dashboard page *)

Module DashboardMore.
Import Dashboard DashboardTheory.

Local Opaque fetchUserData.

(** Mounting: the state is the initial one, the address the page's, and
    [fetchUserData] runs. *)
Lemma mount_run (w : world) :
  step w Mount =
  (fetchUserData (mk_world initial_component (localStorage w) "/dashboard" (sent w)
                           (network w) (console w) (clipboard w))).2.
Proof. unfold step. cbn [handler]. unfold mount. unfold_monad. reflexivity. Qed.

Lemma revoke_run (keyId : value) (w : world) :
  step w (ClickRevoke keyId) =
  match network w (length (sent w)) with
  | Rejected =>
      mk_world (st w) (localStorage w) (location w)
        (sent w ++ [mk_request DELETE "/v1/auth/api-keys/" (Some keyId)
                      (localStorage w !! "access_token") None])%list
        (network w) (console w ++ [TypeError])%list (clipboard w)
  | Response _ _ =>
      (fetchUserData
         (mk_world (st w) (localStorage w) (location w)
            (sent w ++ [mk_request DELETE "/v1/auth/api-keys/" (Some keyId)
                          (localStorage w !! "access_token") None])%list
            (network w) (console w) (clipboard w))).2
  end.
Proof.
  unfold step. cbn [handler]. unfold revokeKey. unfold_monad. cbn beta iota.
  by destruct (network w (length (sent w))).
Qed.

Lemma create_run (w : world) :
  step w ClickCreateNewKey =
  match created_key (network w (length (sent w))) with
  | Some k =>
      (fetchUserData
         (mk_world (mk_component (user (st w)) (apiKeys (st w)) (loading (st w)) true k)
            (localStorage w) (location w)
            (sent w ++ [mk_request POST "/v1/auth/api-keys" None
                          (localStorage w !! "access_token")
                          (Some (VObj [("name", VStr "My API Key")]))])%list
            (network w) (console w) (clipboard w))).2
  | None =>
      mk_world (st w) (localStorage w) (location w)
        (sent w ++ [mk_request POST "/v1/auth/api-keys" None
                      (localStorage w !! "access_token")
                      (Some (VObj [("name", VStr "My API Key")]))])%list
        (network w)
        (console w ++ [match network w (length (sent w)) with
                       | Rejected => TypeError
                       | Response false _ => Error "Failed to create key"
                       | Response true None => SyntaxError
                       | Response true (Some _) => TypeError
                       end])%list
        (clipboard w)
  end.
Proof.
  unfold step. cbn [handler]. unfold createApiKey. unfold_monad. cbn beta iota.
  unfold created_key, succeeds.
  destruct (network w (length (sent w))) as [|[] [p|]] eqn:E; cbn; try done.
  destruct (get_prop p "data") as [d|e] eqn:Ed; cbn.
  2:{ destruct p; simpl in Ed; try done; by inversion Ed. }
  destruct (get_prop d "key") as [k|e] eqn:Ek; cbn; [done|].
  destruct d; simpl in Ek; try done; by inversion Ek.
Qed.

(** X7. Sign Out removes the token from localStorage and goes to the home
    page without sending a request or touching the component state; the
    next load of the dashboard sends no request and goes to /login. *)
Theorem sign_out_then_load (w : world) :
  localStorage (step w ClickSignOut) = delete "access_token" (localStorage w) ∧
  location (step w ClickSignOut) = "/" ∧
  st (step w ClickSignOut) = st w ∧
  sent (step w ClickSignOut) = sent w ∧
  sent (step (step w ClickSignOut) Mount) = sent w ∧
  location (step (step w ClickSignOut) Mount) = "/login".
Proof.
  repeat split; try reflexivity.
  - rewrite mount_run, fetchUserData_run. cbn.
    rewrite lookup_delete_eq. reflexivity.
  - rewrite mount_run, fetchUserData_run. cbn.
    rewrite lookup_delete_eq. reflexivity.
Qed.

(** X8. [fetchUserData] sends nothing without a token; with one it sends
    the user request, and the key-list request only after the user request
    succeeded; both are GETs carrying the stored token, in this order, and
    nothing else is sent. *)
Theorem refresh_request_discipline (w : world) :
  sent (fetchUserData w).2 =
  (sent w ++
   if no_token (localStorage w !! "access_token") then []
   else mk_request GET "/v1/auth/me" None (localStorage w !! "access_token") None ::
        match succeeds (network w (length (sent w))) with
        | Some _ => [mk_request GET "/v1/auth/api-keys" None
                       (localStorage w !! "access_token") None]
        | None => []
        end)%list.
Proof.
  rewrite fetchUserData_run.
  destruct (no_token _); cbn; [by rewrite app_nil_r|].
  destruct (succeeds (network w (length (sent w)))); cbn; [|done].
  destruct (succeeds (network w (S (length (sent w))))); cbn; by rewrite <- app_assoc.
Qed.

(** X9. [revokeKey] sends one DELETE for the key with the stored token. If
    the fetch is rejected the error is logged and nothing else happens: no
    refresh, no change of state or address. If it is answered, whatever the
    status ([res.ok] is not looked at), nothing is logged and the user and
    the key list are fetched again and replace the state. *)
Theorem revoke_refreshes_whatever_the_answer (w : world) (keyId : value) :
  (network w (length (sent w)) = Rejected →
     st (step w (ClickRevoke keyId)) = st w ∧
     location (step w (ClickRevoke keyId)) = location w ∧
     sent (step w (ClickRevoke keyId)) =
       (sent w ++ [mk_request DELETE "/v1/auth/api-keys/" (Some keyId)
                     (localStorage w !! "access_token") None])%list ∧
     console (step w (ClickRevoke keyId)) = (console w ++ [TypeError])%list) ∧
  (∀ ok json u ks,
     network w (length (sent w)) = Response ok json →
     no_token (localStorage w !! "access_token") = false →
     succeeds (network w (S (length (sent w)))) = Some u →
     succeeds (network w (S (S (length (sent w))))) = Some ks →
     user (st (step w (ClickRevoke keyId))) = u ∧
     apiKeys (st (step w (ClickRevoke keyId))) = ks ∧
     location (step w (ClickRevoke keyId)) = location w ∧
     console (step w (ClickRevoke keyId)) = console w ∧
     sent (step w (ClickRevoke keyId)) =
       (sent w ++ [mk_request DELETE "/v1/auth/api-keys/" (Some keyId)
                     (localStorage w !! "access_token") None;
                   mk_request GET "/v1/auth/me" None (localStorage w !! "access_token") None;
                   mk_request GET "/v1/auth/api-keys" None
                     (localStorage w !! "access_token") None])%list).
Proof.
  split.
  - intros Hr. rewrite revoke_run, Hr. done.
  - intros ok json u ks Hr Htok Hu Hks.
    rewrite revoke_run, Hr, fetchUserData_run.
    cbn [localStorage sent network st location console clipboard].
    rewrite Htok, length_app, Nat.add_1_r, Hu, Hks. cbn.
    repeat split. by rewrite <- !app_assoc.
Qed.

(** X10. When the creation request fails (rejected, not ok, a body that is
    not JSON, or no readable [data.key]), [createApiKey] has sent that one
    POST (with the stored token, or none: there is no guard) and logged
    one error; component state, address and localStorage are as before. *)
Theorem failed_creation_changes_nothing (w : world) :
  created_key (network w (length (sent w))) = None →
  st (step w ClickCreateNewKey) = st w ∧
  location (step w ClickCreateNewKey) = location w ∧
  localStorage (step w ClickCreateNewKey) = localStorage w ∧
  sent (step w ClickCreateNewKey) =
    (sent w ++ [mk_request POST "/v1/auth/api-keys" None (localStorage w !! "access_token")
                  (Some (VObj [("name", VStr "My API Key")]))])%list ∧
  length (console (step w ClickCreateNewKey)) = S (length (console w)).
Proof.
  intros H. rewrite create_run, H. cbn. repeat split.
  rewrite length_app. cbn. lia.
Qed.

(** X11. After a successful creation the modal is open on the new key and
    [fetchUserData] has run: with a token and an answering API the user and
    the key list in the state are the fresh answers; without a token the
    router goes to /login. *)
Theorem creation_refreshes_list (w : world) (k : value) :
  created_key (network w (length (sent w))) = Some k →
  (no_token (localStorage w !! "access_token") = true →
     showKeyModal (st (step w ClickCreateNewKey)) = true ∧
     newKey (st (step w ClickCreateNewKey)) = k ∧
     location (step w ClickCreateNewKey) = "/login") ∧
  (∀ u ks,
     no_token (localStorage w !! "access_token") = false →
     succeeds (network w (S (length (sent w)))) = Some u →
     succeeds (network w (S (S (length (sent w))))) = Some ks →
     st (step w ClickCreateNewKey) = mk_component u ks false true k ∧
     location (step w ClickCreateNewKey) = location w).
Proof.
  intros Hk. rewrite create_run, Hk, fetchUserData_run.
  cbn [localStorage sent network st location console clipboard].
  split.
  - intros ->. done.
  - intros u ks -> Hu Hks. rewrite length_app, Nat.add_1_r, Hu, Hks. done.
Qed.

(** X12. After a load whose two requests succeeded the page stays on
    /dashboard and renders the answers: the e-mail and name of the user
    (Not set for a missing name), the rows of the key list, no modal. When
    the key-list answer carries no [data] (undefined or null), the load
    still counts as a success and render throws a TypeError. *)
Theorem answered_load_renders_the_answers (w : world) (u ks : value) :
  no_token (localStorage w !! "access_token") = false →
  succeeds (network w (length (sent w))) = Some u →
  succeeds (network w (S (length (sent w)))) = Some ks →
  location (step w Mount) = "/dashboard" ∧
  render (st (step w Mount)) =
    rbind (render_keys ks) (λ rows,
      Ok (DashboardView (get_prop_opt u "email")
                        (js_or (get_prop_opt u "full_name") (VStr "Not set"))
                        rows None)) ∧
  (ks = VUndefined ∨ ks = VNull → render (st (step w Mount)) = Err TypeError).
Proof.
  intros Htok Hu Hks. rewrite mount_run, fetchUserData_run.
  cbn [localStorage sent network st location console clipboard].
  rewrite Htok, Hu, Hks. cbn [location st].
  split; [done|]. split; [done|].
  intros [->| ->]; reflexivity.
Qed.






(** X14. After a load the component still shows its loading placeholder
    exactly when there is no token: the early return skips the [finally]
    that clears [loading]. *)
Theorem placeholder_iff_no_token (w : world) :
  render (st (step w Mount)) = Ok LoadingView ↔
  no_token (localStorage w !! "access_token") = true.
Proof.
  rewrite mount_run, fetchUserData_run.
  cbn [localStorage sent network st location console clipboard].
  destruct (no_token (localStorage w !! "access_token")); [done|].
  split; [|done].
  destruct (succeeds (network w (length (sent w)))) as [u|].
  - destruct (succeeds (network w (S (length (sent w))))) as [ks|];
      unfold render; cbn [st loading apiKeys showKeyModal newKey initial_component].
    + by destruct (render_keys ks).
    + done.
  - unfold render; cbn. done.
Qed.

Lemma fetchUserData_frame (w : world) :
  localStorage (fetchUserData w).2 = localStorage w ∧
  clipboard (fetchUserData w).2 = clipboard w ∧
  network (fetchUserData w).2 = network w.
Proof.
  rewrite fetchUserData_run.
  destruct (no_token _); [done|].
  destruct (succeeds (network w (length (sent w)))); [|done].
  by destruct (succeeds (network w (S (length (sent w))))).
Qed.

Lemma step_frame (w : world) (e : event) :
  localStorage (step w e) =
    match e with
    | ClickSignOut => delete "access_token" (localStorage w)
    | _ => localStorage w
    end ∧
  clipboard (step w e) =
    match e with
    | ClickCopyAndClose => Some (newKey (st w))
    | _ => clipboard w
    end.
Proof.
  destruct e.
  - rewrite mount_run. by destruct (fetchUserData_frame
      (mk_world initial_component (localStorage w) "/dashboard" (sent w)
                (network w) (console w) (clipboard w))) as (-> & -> & _).
  - rewrite create_run. destruct (created_key _); [|done].
    match goal with |- context [fetchUserData ?w'] =>
      by destruct (fetchUserData_frame w') as (-> & -> & _) end.
  - rewrite revoke_run. destruct (network w (length (sent w))); [done|].
    match goal with |- context [fetchUserData ?w'] =>
      by destruct (fetchUserData_frame w') as (-> & -> & _) end.
  - done.
  - done.
Qed.

(** X15. No handler of the page but Sign Out changes localStorage, and none
    but Copy and Close writes the clipboard, over any sequence of events. *)
Theorem token_survives_until_sign_out (es : list event) (w : world) :
  ClickSignOut ∉ es →
  localStorage (run es w) = localStorage w ∧
  (ClickCopyAndClose ∉ es → clipboard (run es w) = clipboard w).
Proof.
  revert w. induction es as [|e es IH]; intros w Hout; [done|].
  apply not_elem_of_cons in Hout as [Hne Hout].
  cbn [run foldl]. destruct (IH (step w e) Hout) as [Hls Hclip].
  destruct (step_frame w e) as [Hls' Hclip'].
  split.
  - unfold run in Hls. rewrite Hls, Hls'. by destruct e.
  - intros Hcopy. apply not_elem_of_cons in Hcopy as [Hne' Hcopy].
    unfold run in Hclip. rewrite (Hclip Hcopy), Hclip'. by destruct e.
Qed.

(** A DELETE that the API refuses: no error is logged, the list is fetched. *)
Lemma revoke_refreshes_whatever_the_answer_witness :
  network (step (example_world (Some "t") network_refusing_third) Mount) 2
    = Response false None ∧
  console (step (step (example_world (Some "t") network_refusing_third) Mount)
                (ClickRevoke (VStr "k1")))
    = console (step (example_world (Some "t") network_refusing_third) Mount) ∧
  apiKeys (st (step (step (example_world (Some "t") network_refusing_third) Mount)
                    (ClickRevoke (VStr "k1"))))
    = VArr [example_key].
Proof.
  split; [reflexivity|].
  pose proof (proj2 (revoke_refreshes_whatever_the_answer
                       (step (example_world (Some "t") network_refusing_third) Mount)
                       (VStr "k1"))
                false None (VObj [("email", VStr "a@b.c")]) (VArr [example_key])) as H.
  destruct H as (_ & Hkeys & _ & Hconsole & _);
    [vm_compute; reflexivity..|].
  split; [exact Hconsole | exact Hkeys].
Defined.

(** An API that refuses the creation. *)
Lemma failed_creation_changes_nothing_witness :
  created_key (network (example_world (Some "t") (λ _, Response false None))
                 (length (sent (example_world (Some "t") (λ _, Response false None)))))
    = None ∧
  st (step (example_world (Some "t") (λ _, Response false None)) ClickCreateNewKey)
    = initial_component.
Proof.
  split; [reflexivity|].
  apply (failed_creation_changes_nothing
           (example_world (Some "t") (λ _, Response false None))).
  reflexivity.
Defined.

(** A creation on the loaded page. *)
Lemma creation_refreshes_list_witness :
  created_key (network (step (example_world (Some "t") example_network) Mount)
                 (length (sent (step (example_world (Some "t") example_network) Mount))))
    = Some (VStr "aihf_live_cd4567") ∧
  st (step (step (example_world (Some "t") example_network) Mount) ClickCreateNewKey)
    = mk_component (VObj [("email", VStr "a@b.c")]) (VArr [example_key]) false true
                   (VStr "aihf_live_cd4567").
Proof.
  split; [vm_compute; reflexivity|].
  apply (creation_refreshes_list (step (example_world (Some "t") example_network) Mount)
           (VStr "aihf_live_cd4567"));
    vm_compute; reflexivity.
Defined.

(** A key-list answer without [data]. *)
Lemma answered_load_renders_the_answers_witness :
  succeeds (network_without_key_data 1) = Some VUndefined ∧
  location (step (example_world (Some "t") network_without_key_data) Mount) = "/dashboard" ∧
  render (st (step (example_world (Some "t") network_without_key_data) Mount))
    = Err TypeError.
Proof.
  split; [reflexivity|].
  destruct (answered_load_renders_the_answers
              (example_world (Some "t") network_without_key_data)
              (VObj [("email", VStr "a@b.c")]) VUndefined) as (Hloc & _ & Hcrash);
    [reflexivity..|].
  split; [exact Hloc | apply Hcrash; by left].
Defined.


(** A session without Sign Out. *)
Lemma token_survives_until_sign_out_witness :
  (ClickSignOut ∉ [Mount; ClickCreateNewKey; ClickCopyAndClose]) ∧
  localStorage (run [Mount; ClickCreateNewKey; ClickCopyAndClose]
                    (example_world (Some "t") example_network))
    = localStorage (example_world (Some "t") example_network).
Proof.
  assert (ClickSignOut ∉ [Mount; ClickCreateNewKey; ClickCopyAndClose]) as H.
  { intros H. repeat (apply elem_of_cons in H as [H|H]; [discriminate H|]).
    by apply elem_of_nil in H. }
  split; [exact H|].
  apply (token_survives_until_sign_out [Mount; ClickCreateNewKey; ClickCopyAndClose]
           (example_world (Some "t") example_network) H).
Defined.

End DashboardMore.

(** * Properties of the login page *)

Module LoginTheory.
Import Dashboard DashboardTheory DashboardMore Login.

Ltac unfold_login :=
  unfold then_, pure, raise, catching, finally, setEmail, setPassword, setError,
    setLoading, set_page, localStorage_setItem, router_push, post, response_json,
    response_ok, read, new_Error in *.

(** The outcome of [handleSubmit], case by case. *)
Lemma handleSubmit_run (b : browser) :
  (handleSubmit b).2 =
  match granted (server b (length (requests b))) with
  | Some token =>
      mk_browser (mk_form (email (page b)) (password (page b)) "" false)
        (<["access_token" := to_string (number_text b) token]> (storage b)) "/dashboard"
        (requests b ++ [mk_login_request "/v1/auth/login" "application/json"
                          (VObj [("email", VStr (email (page b)));
                                 ("password", VStr (password (page b)))])])%list
        (server b) (null_read b) (number_text b)
  | None =>
      mk_browser (mk_form (email (page b)) (password (page b))
                          (refusal_message b (server b (length (requests b)))) false)
        (storage b) (url b)
        (requests b ++ [mk_login_request "/v1/auth/login" "application/json"
                          (VObj [("email", VStr (email (page b)));
                                 ("password", VStr (password (page b)))])])%list
        (server b) (null_read b) (number_text b)
  end.
Proof.
  unfold handleSubmit. unfold_login. cbn beta iota. cbn [page requests server fst snd email password error submitting].
  unfold granted, refusal_message.
  destruct (server b (length (requests b))) as [m|[] [data|m]] eqn:E; cbn; try done.
  - destruct (get_prop data "access_token") as [token|] eqn:Et; cbn; done.
  - destruct (get_prop data "detail") as [detail|] eqn:Ed; cbn; done.
Qed.

Lemma after_submit (b : browser) : after b Submit = (handleSubmit b).2.
Proof. reflexivity. Qed.


(** X17. On a refusal with a JSON body the banner shows the [detail] of the
    answer when it is a non-empty string, and the text Login failed when
    [detail] is missing or falsy; nothing is stored and the page stays. *)
Theorem refused_login_shows_detail (b : browser) (data detail : value) :
  server b (length (requests b)) = Answer false (Json data) →
  get_prop data "detail" = Ok detail →
  (truthy detail = false →
     banner (render_login (page (after b Submit))) = Some "Login failed") ∧
  (∀ d, detail = VStr d → d ≠ "" →
     banner (render_login (page (after b Submit))) = Some d) ∧
  storage (after b Submit) = storage b ∧ url (after b Submit) = url b.
Proof.
  intros Hr Hd. rewrite after_submit, handleSubmit_run.
  unfold granted, refusal_message. rewrite Hr, Hd. cbn.
  split; [|split; [|done]].
  - intros Hf. unfold js_or. rewrite Hf. reflexivity.
  - intros d -> Hne. unfold js_or. cbn.
    rewrite (bool_decide_eq_false_2 _ Hne). cbn.
    by rewrite (bool_decide_eq_false_2 _ Hne).
Qed.

(** X18. Whatever the answer, a submit sends exactly one request, the POST
    of the e-mail and password of the form to /v1/auth/login, leaves both
    fields as they were, and ends with [loading] cleared, the button
    enabled again. *)
Theorem submit_sends_credentials_once (b : browser) :
  requests (after b Submit) = (requests b ++ [login_request_of (page b)])%list ∧
  email (page (after b Submit)) = email (page b) ∧
  password (page (after b Submit)) = password (page b) ∧
  submitting (page (after b Submit)) = false ∧
  button_disabled (render_login (page (after b Submit))) = false.
Proof.
  rewrite after_submit, handleSubmit_run.
  by destruct (granted (server b (length (requests b)))).
Qed.

Local Opaque fetchUserData.

Lemma open_dashboard_load (b : browser) (net : nat → reply) :
  step (open_dashboard b net) Mount =
  (fetchUserData (mk_world initial_component (storage b) "/dashboard" [] net [] None)).2.
Proof. by rewrite mount_run. Qed.

(** X19. An ok answer whose JSON has no [access_token] still counts as a
    login: the text undefined is stored as the token, the router goes to
    /dashboard, and the dashboard sends its first request with that text
    as bearer token. *)
Theorem missing_access_token_is_stored_as_text (b : browser) (data : value)
    (net : nat → reply) :
  server b (length (requests b)) = Answer true (Json data) →
  get_prop data "access_token" = Ok VUndefined →
  storage (after b Submit) !! "access_token" = Some "undefined" ∧
  url (after b Submit) = "/dashboard" ∧
  ∃ rest, sent (step (open_dashboard (after b Submit) net) Mount) =
          mk_request GET "/v1/auth/me" None (Some "undefined") None :: rest.
Proof.
  intros Hr Hd.
  assert (after b Submit =
          mk_browser (mk_form (email (page b)) (password (page b)) "" false)
            (<["access_token" := "undefined"]> (storage b)) "/dashboard"
            (requests b ++ [login_request_of (page b)])%list (server b) (null_read b)
            (number_text b)) as ->.
  { rewrite after_submit, handleSubmit_run. unfold granted. by rewrite Hr, Hd. }
  cbn [storage url]. rewrite lookup_insert_eq. split; [done|]. split; [done|].
  rewrite open_dashboard_load, fetchUserData_run.
  cbn [localStorage sent network st location console clipboard storage].
  rewrite lookup_insert_eq. cbn.
  destruct (succeeds (net 0%nat)); [destruct (succeeds (net 1%nat))|]; cbn; eauto.
Qed.

(** X20. After a login that was granted the token [t], loading the
    dashboard sends the user request with [t] as bearer token and, when both
    requests succeed, stays on /dashboard with their data; if [t] is the
    empty string the dashboard sends nothing and goes back to /login. *)
Theorem login_then_dashboard_load (b : browser) (t : string) (net : nat → reply) :
  granted (server b (length (requests b))) = Some (VStr t) →
  (t = "" →
     sent (step (open_dashboard (after b Submit) net) Mount) = [] ∧
     location (step (open_dashboard (after b Submit) net) Mount) = "/login") ∧
  (t ≠ "" →
     (∃ rest, sent (step (open_dashboard (after b Submit) net) Mount) =
              mk_request GET "/v1/auth/me" None (Some t) None :: rest) ∧
     ∀ u ks, succeeds (net 0%nat) = Some u → succeeds (net 1%nat) = Some ks →
             location (step (open_dashboard (after b Submit) net) Mount) = "/dashboard" ∧
             user (st (step (open_dashboard (after b Submit) net) Mount)) = u ∧
             apiKeys (st (step (open_dashboard (after b Submit) net) Mount)) = ks).
Proof.
  intros Hg.
  assert (storage (after b Submit) = <["access_token" := t]> (storage b)) as Hs.
  { rewrite after_submit, handleSubmit_run, Hg. done. }
  rewrite open_dashboard_load, fetchUserData_run.
  cbn [localStorage sent network st location console clipboard].
  rewrite Hs, lookup_insert_eq. cbn [no_token length].
  split.
  - intros ->. done.
  - intros Hne. rewrite (bool_decide_eq_false_2 _ Hne). split.
    + destruct (succeeds (net 0%nat)); [destruct (succeeds (net 1%nat))|]; cbn; eauto.
    + intros u ks -> ->. done.
Qed.

(** X21. Whatever the login stored, Sign Out on the dashboard removes it:
    localStorage is the one before the login without [access_token], and
    the next load of the dashboard sends nothing and goes to /login. *)
Theorem login_then_sign_out (b : browser) (net : nat → reply) :
  localStorage (step (open_dashboard (after b Submit) net) ClickSignOut)
    = delete "access_token" (storage b) ∧
  location (step (open_dashboard (after b Submit) net) ClickSignOut) = "/" ∧
  sent (step (step (open_dashboard (after b Submit) net) ClickSignOut) Mount) = [] ∧
  location (step (step (open_dashboard (after b Submit) net) ClickSignOut) Mount) = "/login".
Proof.
  assert (delete "access_token" (storage (after b Submit))
          = delete "access_token" (storage b)) as Hdel.
  { rewrite after_submit, handleSubmit_run.
    destruct (granted _); cbn [storage]; [|done]. by rewrite delete_insert_eq. }
  split; [exact Hdel|]. split; [done|].
  rewrite mount_run, fetchUserData_run.
  cbn [localStorage sent network st location console clipboard step handler signOut].
  change (localStorage (step (open_dashboard (after b Submit) net) ClickSignOut))
    with (delete "access_token" (storage (after b Submit))).
  rewrite lookup_delete_eq. done.
Qed.

Lemma after_frame (b : browser) (e : login_event) :
  length (requests (after b e)) = (length (requests b) + submits [e])%nat ∧
  (∀ k, k ≠ "access_token" → storage (after b e) !! k = storage b !! k) ∧
  (is_Some (storage b !! "access_token") → is_Some (storage (after b e) !! "access_token")) ∧
  (submitting (page b) = false → submitting (page (after b e)) = false) ∧
  server (after b e) = server b.
Proof.
  destruct e; cbn [submits].
  - cbn. repeat split; try done; try lia.
  - cbn. repeat split; try done; try lia.
  - rewrite after_submit, handleSubmit_run.
    destruct (granted _); cbn [requests storage page submitting server];
      rewrite length_app; cbn [length]; repeat split; try done; try lia.
    + intros k Hk. by rewrite lookup_insert_ne.
    + intros _. rewrite lookup_insert_eq. eauto.
Qed.

(** X22. Over any sequence of typing and submitting: one request is sent
    per submit, no key of localStorage other than [access_token] changes, a
    stored token is never removed, and the form never stays in its loading
    state. *)
Theorem login_session_invariants (es : list login_event) (b : browser) :
  length (requests (session es b)) = (length (requests b) + submits es)%nat ∧
  (∀ k, k ≠ "access_token" → storage (session es b) !! k = storage b !! k) ∧
  (is_Some (storage b !! "access_token") →
     is_Some (storage (session es b) !! "access_token")) ∧
  (submitting (page b) = false → submitting (page (session es b)) = false).
Proof.
  revert b. induction es as [|e es IH]; intros b.
  - cbn. repeat split; try done; try lia.
  - cbn [session foldl]. destruct (IH (after b e)) as (Hn & Hk & Ht & Hl).
    destruct (after_frame b e) as (Hn' & Hk' & Ht' & Hl' & _).
    unfold session in *. repeat split.
    + rewrite Hn, Hn'. cbn [submits]. destruct e; cbn; lia.
    + intros k Hne. by rewrite Hk, Hk'.
    + intros H. by apply Ht, Ht'.
    + intros H. by apply Hl, Hl'.
Qed.

(** A refusal with a reason. *)
Lemma refused_login_shows_detail_witness :
  server (example_browser refusing_server) (length (requests (example_browser refusing_server)))
    = Answer false (Json (VObj [("detail", VStr "Incorrect email or password")])) ∧
  banner (render_login (page (after (example_browser refusing_server) Submit)))
    = Some "Incorrect email or password".
Proof.
  split; [reflexivity|].
  apply (refused_login_shows_detail (example_browser refusing_server)
           (VObj [("detail", VStr "Incorrect email or password")])
           (VStr "Incorrect email or password"));
    [reflexivity | reflexivity | reflexivity | discriminate].
Defined.

(** An answer that nests the token under [data]. *)
Lemma missing_access_token_is_stored_as_text_witness :
  get_prop (VObj [("data", VObj [("access_token", VStr "eyJhbGciOi")])]) "access_token"
    = Ok VUndefined ∧
  storage (after (example_browser tokenless_server) Submit) !! "access_token"
    = Some "undefined".
Proof.
  split; [reflexivity|].
  apply (missing_access_token_is_stored_as_text (example_browser tokenless_server)
           (VObj [("data", VObj [("access_token", VStr "eyJhbGciOi")])]) example_network);
    reflexivity.
Defined.

(** A granted login followed by a load of the dashboard. *)
Lemma login_then_dashboard_load_witness :
  granted (server (example_browser granting_server)
             (length (requests (example_browser granting_server))))
    = Some (VStr "eyJhbGciOi") ∧
  ∃ rest, sent (step (open_dashboard (after (example_browser granting_server) Submit)
                        example_network) Mount)
          = mk_request GET "/v1/auth/me" None (Some "eyJhbGciOi") None :: rest.
Proof.
  split; [reflexivity|].
  apply (login_then_dashboard_load (example_browser granting_server) "eyJhbGciOi"
           example_network);
    [reflexivity | discriminate].
Defined.

End LoginTheory.
